(** * Cross-page table identification and merging

    A shallow embedding of
    [SampleCode/Python/sample_identify_and_merge_cross_page_tables.py]
    and the properties of its projection, candidate search, gap
    inspection, merge and chunking steps. *)

From Stdlib Require Import ZArith List String Ascii Bool Lia DecimalString.
From Stdlib Require Import Sorted Permutation.
Import ListNotations.
Open Scope Z_scope.
Set Warnings "-register-all".

(** ** Python primitives used by the sample *)

Module Py.

(** The built-in exceptions the sample can raise. *)
Inductive exn : Type :=
| IndexError      (* [l[i]] out of range *)
| ValueError      (* [min]/[max] of an empty list, [range] with step 0 *)
| TypeError       (* subscripting [None] *)
| AttributeError. (* method call on [None] *)

Inductive result (A : Type) : Type :=
| Ok (a : A)
| Raise (e : exn).
Arguments Ok {A} a.
Arguments Raise {A} e.

Definition bind {A B} (m : result A) (k : A -> result B) : result B :=
  match m with
  | Ok a => k a
  | Raise e => Raise e
  end.

Notation "x <- m ;; k" := (bind m (fun x => k))
  (at level 61, m at next level, right associativity).
Notation "' p <- m ;; k" := (bind m (fun x => let p := x in k))
  (at level 61, p pattern, m at next level, right associativity).

(** [for x in l: body], where the body may raise. *)
Fixpoint mapM {A B} (f : A -> result B) (l : list A) : result (list B) :=
  match l with
  | [] => Ok []
  | x :: l' => y <- f x ;; ys <- mapM f l' ;; Ok (y :: ys)
  end.

(** [l[i]]: a negative index counts from the end of the list. *)
Definition index {A} (l : list A) (i : Z) : result A :=
  let n := Z.of_nat (List.length l) in
  let j := if i <? 0 then i + n else i in
  if (j <? 0) || (n <=? j) then Raise IndexError
  else match nth_error l (Z.to_nat j) with
       | Some x => Ok x
       | None => Raise IndexError
       end.

Fixpoint replace_nth {A} (l : list A) (k : nat) (v : A) : list A :=
  match l, k with
  | [], _ => []
  | _ :: l', O => v :: l'
  | x :: l', S k' => x :: replace_nth l' k' v
  end.

(** [l[i] = v]. *)
Definition setitem {A} (l : list A) (i : Z) (v : A) : result (list A) :=
  let n := Z.of_nat (List.length l) in
  let j := if i <? 0 then i + n else i in
  if (j <? 0) || (n <=? j) then Raise IndexError
  else Ok (replace_nth l (Z.to_nat j) v).

(** [min(l)] and [max(l)] on integers. *)
Definition min (l : list Z) : result Z :=
  match l with
  | [] => Raise ValueError
  | x :: l' => Ok (fold_left Z.min l' x)
  end.

Definition max (l : list Z) : result Z :=
  match l with
  | [] => Raise ValueError
  | x :: l' => Ok (fold_left Z.max l' x)
  end.

(** [sorted(l)] / [l.sort()]: a stable sort, here by insertion. *)
Section Sorting.
Context {A : Type} (leb : A -> A -> bool).

Fixpoint insert (x : A) (l : list A) : list A :=
  match l with
  | [] => [x]
  | y :: l' => if leb x y then x :: l else y :: insert x l'
  end.

Definition sorted (l : list A) : list A := fold_right insert [] l.
End Sorting.

(** [range(start, stop, step)] for a positive step, as the list of its
    values; step 0 raises, a negative step from [start <= stop] is empty. *)
Fixpoint range_up (fuel : nat) (i stop step : Z) : list Z :=
  match fuel with
  | O => []
  | S fuel' => if i <? stop then i :: range_up fuel' (i + step) stop step else []
  end.

Definition range (start stop step : Z) : result (list Z) :=
  if step =? 0 then Raise ValueError
  else if step <? 0 then
         (* the sample only calls [range] with [0 <= start] and
            [stop = len(...)]: a negative step yields nothing unless
            [start > stop] *)
         Ok (if stop <? start
             then map (fun k => start + Z.of_nat k * step)
                      (seq 0 (Z.to_nat ((start - stop - 1) / (- step) + 1)))
             else [])
       else Ok (range_up (Z.to_nat (stop - start)) start stop step).

(** [l[i:j]] for [0 <= i]. *)
Definition slice {A} (l : list A) (i j : Z) : list A :=
  firstn (Z.to_nat (j - i)) (skipn (Z.to_nat i) l).

(** [s.replace('\\\\', '')]: the Python literal denotes two backslash
    characters; every non-overlapping occurrence, leftmost first, goes. *)
Definition backslash : ascii := "\"%char.

Fixpoint remove_double_backslash (s : string) : string :=
  match s with
  | EmptyString => EmptyString
  | String a t =>
      match t with
      | String b rest =>
          if (Ascii.eqb a backslash && Ascii.eqb b backslash)%bool
          then remove_double_backslash rest
          else String a (remove_double_backslash t)
      | EmptyString => String a EmptyString
      end
  end.

Definition str_of_int (z : Z) : string := NilZero.string_of_int (Z.to_int z).

End Py.
Import Py.

(** ** Markup and the parse tree

    The sample builds markup as a string and reads it back with
    [BeautifulSoup(..., 'html.parser')].  Markup is kept here at the
    granularity of the parser's events: start tag, end tag, a complete
    [<th>]/[<td>] cell, character data.  Cell text is opaque: the model
    covers text the parser hands back as it was written (no markup
    characters, not made of white space only). *)

Module Html.

Inductive ename : Type := table | tr.

Definition ename_eqb (a b : ename) : bool :=
  match a, b with
  | table, table | tr, tr => true
  | _, _ => false
  end.

Inductive cell_tag : Type := th | td.

(** [<tag rowspan="r" colspan="c">text</tag>] *)
Record hcell : Type := mk_hcell {
  c_tag : cell_tag;
  c_rowspan : Z;
  c_colspan : Z;
  c_text : string
}.

Inductive token : Type :=
| Open (n : ename)
| Close (n : ename)
| Leaf (c : hcell)
| Data (s : string).

Abbreviation markup := (list token).

(** The characters a token stands for. *)
Definition ename_text (n : ename) : string :=
  match n with table => "table" | tr => "tr" end.

Definition cell_tag_text (t : cell_tag) : string :=
  match t with th => "th" | td => "td" end.

Definition dquote : string := String (ascii_of_nat 34) EmptyString.

Definition token_text (t : token) : string :=
  match t with
  | Open n => "<" ++ ename_text n ++ ">"
  | Close n => "</" ++ ename_text n ++ ">"
  | Leaf c =>
      "<" ++ cell_tag_text (c_tag c)
          ++ " rowspan=" ++ dquote ++ str_of_int (c_rowspan c) ++ dquote
          ++ " colspan=" ++ dquote ++ str_of_int (c_colspan c) ++ dquote
          ++ ">" ++ c_text c ++ "</" ++ cell_tag_text (c_tag c) ++ ">"
  | Data s => s
  end%string.

Definition markup_text (m : markup) : string :=
  fold_right (fun t s => (token_text t ++ s)%string) EmptyString m.

(** *** Plain text

    [html.parser] hands the text between two tags to the tree builder as
    character data, unchanged, when the text has no [<] (which may open a
    tag, a comment or a declaration) and no [&] (which may open a character
    reference); bs4 keeps the data as one string, unless it is made of ASCII
    white space only, which it replaces by a single space or line break.
    [Leaf c] stands for the events of a cell whose text is of that kind:
    start tag, the text as data, end tag.  Text of another kind is outside
    the token view, and what is proved of a parse that starts from cell
    text assumes [plain_text] of it. *)
Fixpoint has_char (a : ascii) (s : string) : bool :=
  match s with
  | EmptyString => false
  | String b t => Ascii.eqb a b || has_char a t
  end.

(** bs4's [ASCII_SPACES]: space, line feed, tab, form feed, carriage
    return. *)
Definition is_ascii_space (a : ascii) : bool :=
  Ascii.eqb a (ascii_of_nat 32) || Ascii.eqb a (ascii_of_nat 10)
  || Ascii.eqb a (ascii_of_nat 9) || Ascii.eqb a (ascii_of_nat 12)
  || Ascii.eqb a (ascii_of_nat 13).

Fixpoint all_ascii_space (s : string) : bool :=
  match s with
  | EmptyString => true
  | String a t => is_ascii_space a && all_ascii_space t
  end.

Definition plain_text (s : string) : bool :=
  negb (has_char "<" s) && negb (has_char "&" s)
  && match s with
     | EmptyString => true
     | String _ _ => negb (all_ascii_space s)
     end.

(** The parse tree. *)
Inductive node : Type :=
| NData (s : string)
| NCell (c : hcell)
| NElem (n : ename) (kids : list node).

(** *** Tree building, after bs4's [handle_starttag], [handle_endtag] and
    [_popToTag]: a start tag opens a child of the current tag, whatever the
    current tag is; an end tag closes every tag up to and including the
    innermost open tag of that name, and is dropped when no tag of that name
    is open; the end of input closes what is still open. *)

Abbreviation frame := (ename * list node)%type.

Record builder : Type := mk_builder {
  stack : list frame;   (* open tags, innermost first *)
  root : list node      (* children of the document *)
}.

Definition add_child (x : node) (st : list frame) (rt : list node) : builder :=
  match st with
  | (n, ks) :: rest => mk_builder ((n, ks ++ [x]) :: rest) rt
  | [] => mk_builder [] (rt ++ [x])
  end.

(** Pop open tags until one named [n] has been popped; [pending] is the tag
    just popped, to be attached to the next one. *)
Fixpoint pop_to (n : ename) (pending : list node) (st : list frame)
  (rt : list node) : builder :=
  match st with
  | [] => mk_builder [] (rt ++ pending)
  | (m, ks) :: rest =>
      let nd := NElem m (ks ++ pending) in
      if ename_eqb m n then add_child nd rest rt
      else pop_to n [nd] rest rt
  end.

Fixpoint pop_all (pending : list node) (st : list frame) (rt : list node)
  : list node :=
  match st with
  | [] => rt ++ pending
  | (m, ks) :: rest => pop_all [NElem m (ks ++ pending)] rest rt
  end.

Definition feed (b : builder) (t : token) : builder :=
  match t with
  | Open n => mk_builder ((n, []) :: stack b) (root b)
  | Close n =>
      if existsb (fun f => ename_eqb (fst f) n) (stack b)
      then pop_to n [] (stack b) (root b)
      else b
  | Leaf c => add_child (NCell c) (stack b) (root b)
  | Data s => add_child (NData s) (stack b) (root b)
  end.

(** [BeautifulSoup(markup, 'html.parser')]: the children of the document. *)
Definition BeautifulSoup (m : markup) : list node :=
  let b := fold_left feed m (mk_builder [] []) in
  pop_all [] (stack b) (root b).

(** *** Searching *)

(** Every descendant of [x], in document order. *)
Fixpoint descendants (x : node) : list node :=
  match x with
  | NElem _ kids => flat_map (fun k => k :: descendants k) kids
  | _ => []
  end.

Definition soup_descendants (soup : list node) : list node :=
  flat_map (fun k => k :: descendants k) soup.

Definition is_elem (n : ename) (x : node) : bool :=
  match x with
  | NElem m _ => ename_eqb m n
  | _ => false
  end.

Definition is_cell (x : node) : bool :=
  match x with NCell _ => true | _ => false end.

Definition is_th (x : node) : bool :=
  match x with
  | NCell c => match c_tag c with th => true | td => false end
  | _ => false
  end.

(** [soup.find('table')] *)
Definition find_table (soup : list node) : option node :=
  List.find (is_elem table) (soup_descendants soup).

(** [tag.find_all('tr')] *)
Definition find_all_tr (x : node) : list node :=
  filter (is_elem tr) (descendants x).

(** [tag.find('th')], as a truth value *)
Definition has_th (x : node) : bool := existsb is_th (descendants x).

(** [tag.find_all(lambda tag: tag.name == 'tr' and tag.find('th'))] *)
Definition find_header_rows (x : node) : list node :=
  filter (fun r => is_elem tr r && has_th r) (descendants x).

(** [tag.find_all(lambda tag: tag.name == 'tr' and not tag.find('th'))] *)
Definition find_non_header_rows (x : node) : list node :=
  filter (fun r => is_elem tr r && negb (has_th r)) (descendants x).

(** [tag.find_all(['td', 'th'])] *)
Definition find_all_cells (x : node) : list node :=
  filter is_cell (descendants x).

(** [soup.find_all('th')], each with its [get_text()] *)
Definition th_texts (soup : list node) : list string :=
  flat_map (fun x => match x with
                     | NCell c => match c_tag c with th => [c_text c] | td => [] end
                     | _ => []
                     end) (soup_descendants soup).

(** *** Serialising: [str(tag)] *)
Fixpoint str (x : node) : markup :=
  match x with
  | NData s => [Data s]
  | NCell c => [Leaf c]
  | NElem n kids => Open n :: flat_map str kids ++ [Close n]
  end.

(** [str(rows)[1:-1].replace('</tr>, <tr>', '</tr><tr>')] for a list of
    [<tr>] tags: their serialisations, one after the other. *)
Definition str_rows (rows : list node) : markup := flat_map str rows.

End Html.
Import Html.

(** ** Input of the analysis service *)

Record DocumentSpan : Type := mk_span {
  offset : Z;
  span_length : Z     (* [span.length] *)
}.

Record BoundingRegion : Type := mk_region {
  page_number : Z
}.

Record DocumentTableCell : Type := mk_cell {
  rowIndex : Z;
  columnIndex : Z;
  rowSpan : option Z;        (* [cell.get("rowSpan", 1)] *)
  columnSpan : option Z;     (* [cell.get("columnSpan", 1)] *)
  kind : option string;      (* [cell.get('kind')] *)
  cell_content : string;     (* [cell['content']] *)
  cell_spans : list DocumentSpan
}.

Record DocumentTable : Type := mk_table {
  cells : list DocumentTableCell;
  spans : list DocumentSpan;
  bounding_regions : list BoundingRegion;
  column_count_ : Z;         (* [table.column_count] *)
  row_count : Z
}.

(** [paragraph.role]: the attribute may be missing, hold [None] or hold a
    role name. *)
Inductive role_attr : Type :=
| NoRoleAttr
| RoleNone
| Role (name : string).

Record DocumentParagraph : Type := mk_paragraph {
  par_spans : list DocumentSpan;
  role : role_attr
}.

(** The dictionary [prepare_html_tables] builds for a table. *)
Record html_table : Type := mk_html_table {
  min_offset : Z;
  max_offset : Z;
  table_page : list Z;
  column_count : Z;
  header_row_count : Z;
  header_text : list string;
  non_header_row_count : Z;
  content : markup
}.

(** ** Projection *)

Definition cell_key_leb (x y : DocumentTableCell) : bool :=
  (rowIndex x <? rowIndex y)
  || ((rowIndex x =? rowIndex y) && (columnIndex x <=? columnIndex y)).

Definition is_column_header (c : DocumentTableCell) : bool :=
  match kind c with
  | Some k => String.eqb k "columnHeader"
  | None => false
  end.

Definition render_cell (c : DocumentTableCell) : hcell :=
  {| c_tag := if is_column_header c then th else td;
     c_rowspan := match rowSpan c with Some r => r | None => 1 end;
     c_colspan := match columnSpan c with Some r => r | None => 1 end;
     c_text := remove_double_backslash (cell_content c) |}.

(** One turn of the loop of [table_to_html] on the state
    [(html, current_row)]. *)
Definition table_to_html_step (st : markup * Z) (cell : DocumentTableCell)
  : markup * Z :=
  let '(html, current_row) := st in
  let html := if negb (rowIndex cell =? current_row)
              then html ++ [Close tr] else html in
  let '(html, current_row) :=
    if (columnIndex cell =? 0) || negb (rowIndex cell =? current_row)
    then (html ++ [Open tr], rowIndex cell)
    else (html, current_row) in
  (html ++ [Leaf (render_cell cell)], current_row).

Definition newline : string := String (ascii_of_nat 10) EmptyString.

Definition table_to_html (t : DocumentTable) : result markup :=
  let cells := sorted cell_key_leb (cells t) in
  let html := [Open table; Data newline] in
  first <- index cells 0 ;;
  let current_row := rowIndex first in
  let '(html, _) := fold_left table_to_html_step cells (html, current_row) in
  Ok (html ++ [Close tr; Close table]).

Definition get_table_page_numbers (t : DocumentTable) : list Z :=
  map page_number (bounding_regions t).

Definition get_table_span_offsets_step (st : Z * Z) (span : DocumentSpan)
  : Z * Z :=
  let '(min_offset, max_offset) := st in
  let min_offset := if offset span <? min_offset then offset span
                    else min_offset in
  let max_offset := if max_offset <? offset span + span_length span
                    then offset span + span_length span else max_offset in
  (min_offset, max_offset).

Definition get_table_span_offsets (t : DocumentTable) : result (Z * Z) :=
  s0 <- index (spans t) 0 ;;
  let min_offset := offset s0 in
  let max_offset := offset s0 + span_length s0 in
  Ok (fold_left get_table_span_offsets_step (spans t) (min_offset, max_offset)).

(** The body of the loop of [prepare_html_tables].  The parser is given the
    events of the rendering, which are the events of its characters when the
    text of every cell is plain ([plain_text]). *)
Definition prepare_html_table (t : DocumentTable) : result html_table :=
  '(min_offset, max_offset) <- get_table_span_offsets t ;;
  let table_page := get_table_page_numbers t in
  data_html <- table_to_html t ;;
  let soup := BeautifulSoup data_html in
  match find_table soup with
  | None => Raise AttributeError
  | Some souptable =>
      let header_rows := find_header_rows souptable in
      let header_rows_count := Z.of_nat (List.length header_rows) in
      let header_cell_texts := sorted String.leb (th_texts soup) in
      Ok {| min_offset := min_offset;
            max_offset := max_offset;
            table_page := table_page;
            column_count := column_count_ t;
            header_row_count := header_rows_count;
            header_text := header_cell_texts;
            non_header_row_count := row_count t - header_rows_count;
            content := data_html |}
  end.

Definition prepare_html_tables (tables : list DocumentTable)
  : result (list html_table) :=
  mapM prepare_html_table tables.

(** ** Candidate search *)

Record candidate : Type := mk_candidate {
  pre_table_idx : Z;
  start : Z;
  end_ : Z                   (* key ["end"] *)
}.

(** The loop of [find_merge_table_candidates] from table number [table_idx]
    on, with the loop variables [pre_table_idx], [pre_table_page] and
    [pre_max_offset] as arguments. *)
Fixpoint find_merge_table_candidates_from (table_idx : Z)
  (pre_idx pre_table_page pre_max_offset : Z) (html_lables : list html_table)
  : result (list candidate) :=
  match html_lables with
  | [] => Ok []
  | t :: rest =>
      let min_offset := min_offset t in
      let max_offset := max_offset t in
      page <- Py.min (table_page t) ;;
      let emitted :=
        if page =? pre_table_page + 1
        then [ {| pre_table_idx := pre_idx;
                  start := pre_max_offset;
                  end_ := min_offset |} ]
        else [] in
      last_page <- Py.max (table_page t) ;;
      more <- find_merge_table_candidates_from
                (table_idx + 1) table_idx last_page max_offset rest ;;
      Ok (emitted ++ more)
  end.

Definition find_merge_table_candidates (html_lables : list html_table)
  : result (list candidate) :=
  find_merge_table_candidates_from 0 (-1) (-1) 0 html_lables.

(** ** Gap inspection *)

Definition page_furniture : list string :=
  ["pageHeader"; "pageFooter"; "pageNumber"]%string.

(** The two tests on [paragraph.role], under a span that lies in the gap. *)
Definition counts_as_content (r : role_attr) : bool :=
  match r with
  | NoRoleAttr => true                       (* [not hasattr(paragraph, 'role')] *)
  | RoleNone => true                         (* [None not in [...]] *)
  | Role name => negb (existsb (String.eqb name) page_furniture)
  end.

Definition check_paragraph_presence (paragraphs : list DocumentParagraph)
  (start end_ : Z) : bool :=
  existsb (fun paragraph =>
    existsb (fun span =>
      (start <? offset span) && (offset span <? end_)
      && counts_as_content (role paragraph))
      (par_spans paragraph))
    paragraphs.

(** ** Merging *)

(** [row1.append(column)] and [table1.append(row)] move a tag: it leaves
    the tree it was in.  The two functions below give, for each [<tr>] of
    the second table in document order, what is still there to move when
    its turn comes. *)

(** Column-wise: the cells under a row, unless an enclosing row, visited
    before, has taken them. *)
Fixpoint columns_by_row (nested : bool) (x : node) : list (list node) :=
  match x with
  | NElem n kids =>
      let here := match n with
                  | tr => [if nested then [] else find_all_cells x]
                  | table => []
                  end in
      let nested' := match n with tr => true | table => nested end in
      here ++ flat_map (columns_by_row nested') kids
  | _ => []
  end.

(** The rows of the first table, in document order, each receive the next
    list of cells at the end of its children; [zip] stops at the shorter
    side. *)
Fixpoint append_columns (x : node) (cols : list (list node))
  : node * list (list node) :=
  match x with
  | NElem n kids =>
      let '(mine, cols) :=
        match n, cols with
        | tr, c :: cols' => (c, cols')
        | _, _ => ([], cols)
        end in
      let '(kids', cols') :=
        (fix go (l : list node) (cols : list (list node)) :=
           match l with
           | [] => ([], cols)
           | y :: l' =>
               let '(y', cols1) := append_columns y cols in
               let '(l'', cols2) := go l' cols1 in
               (y' :: l'', cols2)
           end) kids cols in
      (NElem n (kids' ++ mine), cols')
  | _ => (x, cols)
  end.

(** Row-wise: a row that is moved loses the rows nested in it, which are
    moved after it in their turn. *)
Fixpoint without_rows (x : node) : node :=
  match x with
  | NElem n kids =>
      NElem n (flat_map (fun k => if is_elem tr k then []
                                  else [without_rows k]) kids)
  | _ => x
  end.

(** [tag.append(x)] for each [x] of [new]. *)
Definition append_children (x : node) (new : list node) : node :=
  match x with
  | NElem n kids => NElem n (kids ++ new)
  | _ => x
  end.

Definition merge_tables_colum_wise (table1_html table2_html : html_table)
  : result html_table :=
  let soup1 := BeautifulSoup (content table1_html) in
  let soup2 := BeautifulSoup (content table2_html) in
  match find_table soup1, find_table soup2 with
  | Some table1, Some table2 =>
      let rows2 := firstn (List.length (find_all_tr table1))
                          (columns_by_row false table2) in
      let table1 := fst (append_columns table1 rows2) in
      Ok {| min_offset := Z.min (min_offset table1_html) (min_offset table2_html);
            max_offset := Z.max (max_offset table1_html) (max_offset table2_html);
            table_page := sorted Z.leb (table_page table1_html ++ table_page table2_html);
            column_count := column_count table1_html + column_count table2_html;
            header_row_count := header_row_count table1_html;
            header_text := sorted String.leb (header_text table1_html ++ header_text table2_html);
            non_header_row_count := non_header_row_count table1_html;
            content := str table1 |}
  | _, _ => Raise AttributeError      (* [None.find_all] *)
  end.

Definition merge_tables_row_wise (table1_html table2_html : html_table)
  : result html_table :=
  let soup1 := BeautifulSoup (content table1_html) in
  let soup2 := BeautifulSoup (content table2_html) in
  match find_table soup2 with
  | None => Raise AttributeError      (* [None.find_all] *)
  | Some table2 =>
      let header_rows := find_header_rows table2 in
      let start_index := List.length header_rows in
      let rows := map without_rows (skipn start_index (find_all_tr table2)) in
      merged_content <-
        match find_table soup1, rows with
        | Some table1, _ => Ok (str (append_children table1 rows))
        | None, [] => Ok [Data "None"]   (* [str(None)] *)
        | None, _ :: _ => Raise AttributeError   (* [None.append] *)
        end ;;
      Ok {| min_offset := Z.min (min_offset table1_html) (min_offset table2_html);
            max_offset := Z.max (max_offset table1_html) (max_offset table2_html);
            table_page := sorted Z.leb (table_page table1_html ++ table_page table2_html);
            column_count := column_count table1_html;
            header_row_count := header_row_count table1_html;
            header_text := header_text table1_html;
            non_header_row_count :=
              non_header_row_count table1_html + non_header_row_count table2_html;
            content := merged_content |}
  end.

(** ** The two merge passes

    The working list [html_tables] holds [None] where a table has been
    merged into its successor. *)

Definition working_list : Type := list (option html_table).

(** [table["..."]] on an entry of the working list. *)
Definition subscript (entry : option html_table) : result html_table :=
  match entry with
  | Some t => Ok t
  | None => Raise TypeError
  end.

Definition list_eqb (a b : list string) : bool :=
  if list_eq_dec string_dec a b then true else false.

Definition column_wise_step (paragraphs : list DocumentParagraph)
  (html_tables : working_list) (candidate : candidate) : result working_list :=
  let table_idx := pre_table_idx candidate in
  let start := start candidate in
  let end_ := end_ candidate in
  let has_paragraph := check_paragraph_presence paragraphs start end_ in
  let has_paragraph := false in
  table1 <- index html_tables table_idx ;;
  table2 <- index html_tables (table_idx + 1) ;;
  if negb has_paragraph then
    t1 <- subscript table1 ;;
    t2 <- subscript table2 ;;
    if (header_row_count t1 =? header_row_count t2)
       && (non_header_row_count t1 =? non_header_row_count t2)
    then
      merged <- merge_tables_colum_wise t1 t2 ;;
      html_tables <- setitem html_tables (table_idx + 1) (Some merged) ;;
      setitem html_tables table_idx None
    else Ok html_tables
  else Ok html_tables.

Fixpoint check_and_merge_column_wise (paragraphs : list DocumentParagraph)
  (html_tables : working_list) (merge_tables_candidates : list candidate)
  : result working_list :=
  match merge_tables_candidates with
  | [] => Ok html_tables
  | candidate :: rest =>
      html_tables <- column_wise_step paragraphs html_tables candidate ;;
      check_and_merge_column_wise paragraphs html_tables rest
  end.

Definition row_wise_step (paragraphs : list DocumentParagraph)
  (html_tables : working_list) (candidate : candidate) : result working_list :=
  let table_idx := pre_table_idx candidate in
  let start := start candidate in
  let end_ := end_ candidate in
  let has_paragraph := check_paragraph_presence paragraphs start end_ in
  let has_paragraph := false in
  table1 <- index html_tables table_idx ;;
  table2 <- index html_tables (table_idx + 1) ;;
  if negb has_paragraph then
    t1 <- subscript table1 ;;
    t2 <- subscript table2 ;;
    if (column_count t1 =? column_count t2)
       && (((header_row_count t1 <=? 0) && (header_row_count t2 <=? 0))
           || ((header_row_count t1 =? header_row_count t2)
               && list_eqb (header_text t1) (header_text t2)))
    then
      merged <- merge_tables_row_wise t1 t2 ;;
      html_tables <- setitem html_tables (table_idx + 1) (Some merged) ;;
      setitem html_tables table_idx None
    else Ok html_tables
  else Ok html_tables.

Fixpoint check_and_merge_row_wise (paragraphs : list DocumentParagraph)
  (html_tables : working_list) (merge_tables_candidates : list candidate)
  : result working_list :=
  match merge_tables_candidates with
  | [] => Ok html_tables
  | candidate :: rest =>
      html_tables <- row_wise_step paragraphs html_tables candidate ;;
      check_and_merge_row_wise paragraphs html_tables rest
  end.

(** [[x for x in html_tables if x is not None]] *)
Definition compact (html_tables : working_list) : list html_table :=
  flat_map (fun x => match x with Some t => [t] | None => [] end) html_tables.

(** ** Chunking *)

Definition chunks {A} (lst : list A) (start_index chunk_size : Z)
  : result (list (list A)) :=
  starts <- range start_index (Z.of_nat (List.length lst)) chunk_size ;;
  Ok (map (fun i => slice lst i (i + chunk_size)) starts).

Definition split_table_with_headers (table_html : html_table)
  (table_max_rows : Z) : result (list html_table) :=
  let soup := BeautifulSoup (content table_html) in
  match find_table soup with
  | None => Raise AttributeError      (* [None.find_all] *)
  | Some tbl =>
      let header_rows := find_header_rows tbl in
      let non_header_rows := find_non_header_rows tbl in
      let nonempty := match header_rows with [] => false | _ => true end in
      let header_string := if nonempty then str_rows header_rows else [] in
      groups <- chunks non_header_rows 0 table_max_rows ;;
      Ok (map (fun chunk =>
                 let new_table := [Open Html.table] in
                 let new_table := new_table ++ header_string in
                 (* the conditional expression takes the whole sum as its
                    first branch *)
                 let new_table := if nonempty
                                  then new_table ++ str_rows chunk
                                  else [] in
                 let new_table := new_table ++ [Close Html.table] in
                 {| min_offset := min_offset table_html;
                    max_offset := max_offset table_html;
                    table_page := table_page table_html;
                    column_count := column_count table_html;
                    header_row_count := header_row_count table_html;
                    header_text := header_text table_html;
                    non_header_row_count := non_header_row_count table_html;
                    content := new_table |})
              groups)
  end.

(** ** The driver *)

Record AnalyzeResult : Type := mk_result {
  tables : list DocumentTable;
  paragraphs : list DocumentParagraph
}.

Definition identify_cross_page_tables (result : AnalyzeResult)
  (table_max_rows : Z) : Py.result (list html_table) :=
  html_tables <- prepare_html_tables (tables result) ;;
  merge_tables_candidates <- find_merge_table_candidates html_tables ;;
  html_tables <- check_and_merge_column_wise (paragraphs result)
                   (map Some html_tables) merge_tables_candidates ;;
  let html_tables := compact html_tables in
  merge_tables_candidates <- find_merge_table_candidates html_tables ;;
  html_tables <- check_and_merge_row_wise (paragraphs result)
                   (map Some html_tables) merge_tables_candidates ;;
  let html_tables := compact html_tables in
  final <- mapM (fun t => split_table_with_headers t table_max_rows)
             html_tables ;;
  Ok (List.concat final).

(** * Vocabulary of the properties *)

(** The role attribute is unset: missing, or present and [None]. *)
Definition role_unset (r : role_attr) : Prop :=
  r = NoRoleAttr \/ r = RoleNone.

(** The role names one of the three kinds of page furniture. *)
Definition role_is_furniture (r : role_attr) : Prop :=
  exists name,
    r = Role name
    /\ (name = "pageHeader" \/ name = "pageFooter" \/ name = "pageNumber")%string.

(** How many candidates name table number [j] as their earlier table. *)
Definition candidates_at (j : Z) (cands : list candidate) : nat :=
  List.length (filter (fun c => pre_table_idx c =? j) cands).

(** What the candidate list says about the adjacent tables [a] (number [j])
    and [b] (number [j + 1]). *)
Definition adjacent_pair_ok (cands : list candidate) (j : Z)
  (a b : html_table) : Prop :=
  exists pa pb,
    Py.max (table_page a) = Ok pa /\ Py.min (table_page b) = Ok pb
    /\ ((exists c, In c cands /\ pre_table_idx c = j) <-> pb = pa + 1)
    /\ (forall c, In c cands -> pre_table_idx c = j ->
          start c = max_offset a /\ end_ c = min_offset b)
    /\ (candidates_at j cands <= 1)%nat.

Definition has_pages (t : html_table) : Prop := table_page t <> [].

Definition pages_from_one (t : html_table) : Prop :=
  table_page t <> [] /\ Forall (fun p => 1 <= p) (table_page t).

(** The markup of [t] holds a [<table>] element. *)
Definition has_table_markup (t : html_table) : Prop :=
  find_table (BeautifulSoup (content t)) <> None.

(** The fragment [split_table_with_headers] builds from [chunk]. *)
Definition fragment_of (t : html_table) (new_table : markup) : html_table :=
  {| min_offset := min_offset t;
     max_offset := max_offset t;
     table_page := table_page t;
     column_count := column_count t;
     header_row_count := header_row_count t;
     header_text := header_text t;
     non_header_row_count := non_header_row_count t;
     content := new_table |}.

(** Every cell of [t] is rendered with plain text: the parser reads each
    cell back as [table_to_html] wrote it. *)
Definition plain_cells (t : DocumentTable) : Prop :=
  Forall (fun c => plain_text (c_text (render_cell c)) = true) (cells t).

(** The cells in the order [table_to_html] visits them. *)
Definition visit_order (t : DocumentTable) : list DocumentTableCell :=
  sorted cell_key_leb (cells t).

(** After a cell of row [cur], every cell that stays in the row of the
    cell before it sits at a column other than 0. *)
Fixpoint rows_continue (cur : Z) (l : list DocumentTableCell) : bool :=
  match l with
  | [] => true
  | c :: l' =>
      if rowIndex c =? cur
      then negb (columnIndex c =? 0) && rows_continue cur l'
      else rows_continue (rowIndex c) l'
  end.

(** The grid gives [table_to_html] one [<tr>] per row: the first cell
    visited sits at column 0, and no later cell of a row does. *)
Definition one_tr_per_row (l : list DocumentTableCell) : bool :=
  match l with
  | [] => false
  | c :: l' => (columnIndex c =? 0) && rows_continue (rowIndex c) l'
  end.

(** The row indices, each once, that carry a cell of kind columnHeader. *)
Definition header_row_indices (l : list DocumentTableCell) : list Z :=
  nodup Z.eq_dec (map rowIndex (filter is_column_header l)).

(** The count the specification words describe: the contiguous leading
    rows that contain a header cell. *)
Fixpoint leading_rows_with_header (rows : list node) : nat :=
  match rows with
  | r :: rest => if has_th r then S (leading_rows_with_header rest) else O
  | [] => O
  end.

(** The count under the data model's wording: the leading rows all of
    whose cells are header cells. *)
Fixpoint leading_rows_all_header (rows : list node) : nat :=
  match rows with
  | r :: rest =>
      if forallb is_th (find_all_cells r)
      then S (leading_rows_all_header rest) else O
  | [] => O
  end.

(** The cells gathered row by row, in visiting order: the rows already
    closed and the row being filled. *)
Fixpoint group_rows (done : list (list DocumentTableCell))
  (current : list DocumentTableCell) (cur : Z) (l : list DocumentTableCell)
  : list (list DocumentTableCell) * list DocumentTableCell :=
  match l with
  | [] => (done, current)
  | c :: l' =>
      if rowIndex c =? cur
      then group_rows done (current ++ [c]) cur l'
      else group_rows (done ++ [current]) [c] (rowIndex c) l'
  end.

Definition row_kids (cs : list DocumentTableCell) : list node :=
  map (fun c => NCell (render_cell c)) cs.

Definition row_node (cs : list DocumentTableCell) : node :=
  NElem tr (row_kids cs).

(** Row indices never decrease along the list. *)
Fixpoint rows_ascend (l : list DocumentTableCell) : Prop :=
  match l with
  | [] => True
  | c :: l' =>
      (forall x, In x l' -> rowIndex c <= rowIndex x) /\ rows_ascend l'
  end.

(** The first tag the builder opened is a [<table>], still open at the
    bottom of the stack or closed as the first child of the document. *)
Definition leading_table (b : builder) : Prop :=
  (exists fs ks, stack b = fs ++ [(table, ks)] /\ root b = [])
  \/ (exists ks rest, root b = NElem table ks :: rest).

(** The builder inside a [<tr>] of the one [<table>]: the rows closed so far
    and the cells of the open row. *)
Definition open_row (done : list (list DocumentTableCell))
  (current : list DocumentTableCell) : builder :=
  mk_builder [(tr, row_kids current);
              (table, NData newline :: map row_node done)] [].

(** The row indices of the header cells, with repetitions. *)
Definition header_rows_of (l : list DocumentTableCell) : list Z :=
  map rowIndex (filter is_column_header l).

(** * Sample inputs *)

Definition th_cell (text : string) : hcell := mk_hcell th 1 1 text.
Definition td_cell (text : string) : hcell := mk_hcell td 1 1 text.

(** A table on page 1, offsets 100 to 400: one header row, one body row. *)
Definition table_A : html_table :=
  {| min_offset := 100; max_offset := 400; table_page := [1];
     column_count := 1; header_row_count := 1; header_text := ["h"%string];
     non_header_row_count := 1;
     content := [Open table; Data newline;
                 Open tr; Leaf (th_cell "h"); Close tr;
                 Open tr; Leaf (td_cell "a"); Close tr; Close table] |}.

(** Its continuation on page 2, offsets 420 to 700. *)
Definition table_B : html_table :=
  {| min_offset := 420; max_offset := 700; table_page := [2];
     column_count := 1; header_row_count := 1; header_text := ["h"%string];
     non_header_row_count := 1;
     content := [Open table; Data newline;
                 Open tr; Leaf (th_cell "h"); Close tr;
                 Open tr; Leaf (td_cell "b"); Close tr; Close table] |}.

(** A paragraph without a role at offset 410, between the two tables. *)
Definition gap_paragraph : DocumentParagraph :=
  {| par_spans := [mk_span 410 5]; role := RoleNone |}.

(** A table whose only cell carries a span wider than the table's own. *)
Definition table_wide_cell : DocumentTable :=
  {| cells := [ {| rowIndex := 0; columnIndex := 0; rowSpan := None;
                   columnSpan := None; kind := None; cell_content := "a";
                   cell_spans := [mk_span 0 100] |} ];
     spans := [mk_span 10 5];
     bounding_regions := [mk_region 1];
     column_count_ := 1; row_count := 1 |}.

(** A table with one cell and no span of its own. *)
Definition table_no_spans : DocumentTable :=
  {| cells := [ {| rowIndex := 0; columnIndex := 0; rowSpan := None;
                   columnSpan := None; kind := None; cell_content := "a";
                   cell_spans := [mk_span 0 100] |} ];
     spans := [];
     bounding_regions := [mk_region 1];
     column_count_ := 1; row_count := 1 |}.

(** A table without cells. *)
Definition table_no_cells : DocumentTable :=
  {| cells := []; spans := [mk_span 10 5];
     bounding_regions := [mk_region 1];
     column_count_ := 1; row_count := 0 |}.

(** A table without header rows: one body row. *)
Definition table_plain : html_table :=
  {| min_offset := 100; max_offset := 400; table_page := [1];
     column_count := 1; header_row_count := 0; header_text := [];
     non_header_row_count := 1;
     content := [Open table; Data newline;
                 Open tr; Leaf (td_cell "a"); Close tr; Close table] |}.

(** A table of header rows only. *)
Definition table_header_only : html_table :=
  {| min_offset := 100; max_offset := 400; table_page := [1];
     column_count := 1; header_row_count := 1; header_text := ["h"%string];
     non_header_row_count := 0;
     content := [Open table; Data newline;
                 Open tr; Leaf (th_cell "h"); Close tr; Close table] |}.

(** A body row above a header row. *)
Definition table_late_header : DocumentTable :=
  {| cells := [ {| rowIndex := 0; columnIndex := 0; rowSpan := None;
                   columnSpan := None; kind := None; cell_content := "a";
                   cell_spans := [] |};
                {| rowIndex := 1; columnIndex := 0; rowSpan := None;
                   columnSpan := None; kind := Some "columnHeader"%string;
                   cell_content := "b"; cell_spans := [] |} ];
     spans := [mk_span 10 5];
     bounding_regions := [mk_region 1];
     column_count_ := 1; row_count := 2 |}.

(** * Vocabulary of the further properties *)

(** Some table touches no page. *)
Definition some_table_without_pages (tables : list html_table) : Prop :=
  Exists (fun t => table_page t = []) tables.


(** A table that touches no page. *)
Definition table_no_pages : html_table :=
  {| min_offset := 5; max_offset := 50; table_page := [];
     column_count := 1; header_row_count := 0; header_text := [];
     non_header_row_count := 0;
     content := [Open table; Close table] |}.

(** A table the later steps can work on: its markup holds a [<table>], it
    touches at least one page and its pages are numbered from 1. *)
Definition good_table (t : html_table) : Prop :=
  has_table_markup t /\ pages_from_one t.

(** The working list while a pass runs: every table still in it is good,
    and no slot from position [lo] on has been emptied yet. *)
Definition slots_ready (ws : working_list) (lo : nat) : Prop :=
  (forall j t, nth_error ws j = Some (Some t) -> good_table t)
  /\ (forall j, (lo <= j < List.length ws)%nat ->
        exists t, nth_error ws j = Some (Some t)).

(** A raw table the whole run accepts: at least one cell, one span and one
    region, pages numbered from 1. *)
Definition well_formed_table (t : DocumentTable) : Prop :=
  cells t <> [] /\ spans t <> [] /\ bounding_regions t <> []
  /\ Forall (fun r => 1 <= page_number r) (bounding_regions t).

(** One turn of either pass on a candidate whose two slots are filled:
    the list stays as it is, or the pair is merged into the later slot. *)
Definition step_merges_or_keeps
  (step : working_list -> candidate -> result working_list) : Prop :=
  forall ws c t1 t2,
    0 <= pre_table_idx c ->
    nth_error ws (Z.to_nat (pre_table_idx c)) = Some (Some t1) ->
    nth_error ws (S (Z.to_nat (pre_table_idx c))) = Some (Some t2) ->
    good_table t1 -> good_table t2 ->
    step ws c = Ok ws
    \/ exists m,
         good_table m
         /\ step ws c
            = Ok (replace_nth
                    (replace_nth ws (S (Z.to_nat (pre_table_idx c))) (Some m))
                    (Z.to_nat (pre_table_idx c)) None).

(** Every table whose projection, merging and chunking go through. *)
Definition well_formed_result (r : AnalyzeResult) : Prop :=
  Forall well_formed_table (tables r).

(** An analysis result with the two-cell table on its one page. *)
Definition result_late_header : AnalyzeResult :=
  {| tables := [table_late_header]; paragraphs := [gap_paragraph] |}.

(** The fragment [f] carries the fields of [t] other than the markup. *)
Definition same_metadata (t f : html_table) : Prop :=
  min_offset f = min_offset t /\ max_offset f = max_offset t
  /\ table_page f = table_page t /\ column_count f = column_count t
  /\ header_row_count f = header_row_count t
  /\ header_text f = header_text t
  /\ non_header_row_count f = non_header_row_count t.

(** The parse of [table_A]'s markup. *)
Definition table_A_tree : node :=
  NElem table [NData newline; NElem tr [NCell (th_cell "h")];
               NElem tr [NCell (td_cell "a")]].

(** A raw table projection accepts / rejects. *)
Definition projectable (t : DocumentTable) : Prop :=
  cells t <> [] /\ spans t <> [].

Definition unprojectable (t : DocumentTable) : Prop :=
  cells t = [] \/ spans t = [].

(** The cells of a piece of markup, in order. *)
Definition leaves (m : markup) : list hcell :=
  flat_map (fun t => match t with Leaf c => [c] | _ => [] end) m.

(** The order of [(rowIndex, columnIndex)] keys. *)
Definition cell_key_le (x y : DocumentTableCell) : Prop :=
  rowIndex x < rowIndex y
  \/ (rowIndex x = rowIndex y /\ columnIndex x <= columnIndex y).

(** The merged table [m] spans what [a] and [b] span: its interval is the
    least one covering both, its pages are theirs, in ascending order. *)
Definition spans_both (a b m : html_table) : Prop :=
  min_offset m <= min_offset a /\ min_offset m <= min_offset b
  /\ (min_offset m = min_offset a \/ min_offset m = min_offset b)
  /\ max_offset a <= max_offset m /\ max_offset b <= max_offset m
  /\ (max_offset m = max_offset a \/ max_offset m = max_offset b)
  /\ Permutation (table_page m) (table_page a ++ table_page b)
  /\ StronglySorted Z.le (table_page m).

(** ** Tables laid out as a grid *)

(** A [<tr>] of cells, and a [<table>] of such rows after the line break
    [table_to_html] writes. *)
Definition hrow (cs : list hcell) : node := NElem tr (map NCell cs).

Definition grid (rows : list (list hcell)) : node :=
  NElem table (NData newline :: map hrow rows).

(** The markup of [t] parses to the grid of [rows]. *)
Definition is_grid (t : html_table) (rows : list (list hcell)) : Prop :=
  BeautifulSoup (content t) = [grid rows].

Definition is_th_cell (c : hcell) : bool :=
  match c_tag c with th => true | td => false end.

(** The row holds a header cell. *)
Definition header_row (cs : list hcell) : bool := existsb is_th_cell cs.

(** Row [i] of the first grid followed by row [i] of the second, as far as
    the second reaches; the rows of the second beyond the first are left
    out. *)
Fixpoint zip_rows (ra rb : list (list hcell)) : list (list hcell) :=
  match ra with
  | [] => []
  | r :: ra' =>
      match rb with
      | [] => r :: ra'
      | s :: rb' => (r ++ s) :: zip_rows ra' rb'
      end
  end.

(** [append_columns] along a list of siblings. *)
Fixpoint append_columns_list (l : list node) (cols : list (list node))
  : list node * list (list node) :=
  match l with
  | [] => ([], cols)
  | y :: l' =>
      let '(y', cols1) := append_columns y cols in
      let '(l'', cols2) := append_columns_list l' cols1 in
      (y' :: l'', cols2)
  end.

(** What the builder does with the serialisation of [x]: [x] becomes a
    child of the current tag. *)
Definition parses_back (x : node) : Prop :=
  forall st rt,
    fold_left feed (str x) (mk_builder st rt) = add_child x st rt.

(** The test of the row-wise pass on two tables. *)
Definition row_wise_compatible (t1 t2 : html_table) : Prop :=
  column_count t1 = column_count t2
  /\ ((header_row_count t1 <= 0 /\ header_row_count t2 <= 0)
      \/ (header_row_count t1 = header_row_count t2
          /\ header_text t1 = header_text t2)).

(** The test of the column-wise pass on two tables. *)
Definition column_wise_compatible (t1 t2 : html_table) : Prop :=
  header_row_count t1 = header_row_count t2
  /\ non_header_row_count t1 = non_header_row_count t2.

(** A third table, on page 3, offsets 720 to 900. *)
Definition table_C : html_table :=
  {| min_offset := 720; max_offset := 900; table_page := [3];
     column_count := 1; header_row_count := 1; header_text := ["h"%string];
     non_header_row_count := 1;
     content := [Open table; Data newline;
                 Open tr; Leaf (th_cell "h"); Close tr;
                 Open tr; Leaf (td_cell "c"); Close tr; Close table] |}.

(** The row [row] holds cells, all of row index [i]. *)
Definition row_of_index (row : list DocumentTableCell) (i : Z) : Prop :=
  row <> [] /\ Forall (fun c => rowIndex c = i) row.

(** ** Document order *)

(** The cells of a forest, in document order. *)
Definition cells_in (l : list node) : list hcell :=
  flat_map (fun x => match x with NCell c => [c] | _ => [] end)
    (soup_descendants l).

(** The cells the builder has taken in so far: those of the document, then
    those of the open tags from the outermost to the innermost. *)
Definition seen (b : builder) : list hcell :=
  cells_in (root b) ++ flat_map (fun f => cells_in (snd f)) (rev (stack b)).

(** The text a header cell of the raw table is rendered with. *)
Definition header_cell_text (c : DocumentTableCell) : string :=
  remove_double_backslash (cell_content c).

Definition string_le (x y : string) : Prop := String.leb x y = true.

(** Two backslash characters in a row somewhere in [s]. *)
Fixpoint has_double_backslash (s : string) : bool :=
  match s with
  | EmptyString => false
  | String a t =>
      match t with
      | String b _ =>
          (Ascii.eqb a backslash && Ascii.eqb b backslash)
          || has_double_backslash t
      | EmptyString => false
      end
  end.

(** * Properties *)

(** ** Gap inspection *)

Lemma counts_as_content_spec (r : role_attr) :
  counts_as_content r = true <-> role_unset r \/ ~ role_is_furniture r.
Proof.
  unfold role_unset, role_is_furniture.
  destruct r as [| |name]; simpl.
  - intuition.
  - intuition.
  - destruct (String.eqb_spec name "pageHeader") as [E1|N1];
      [|destruct (String.eqb_spec name "pageFooter") as [E2|N2];
        [|destruct (String.eqb_spec name "pageNumber") as [E3|N3]]];
      simpl; split; intro H; try reflexivity; try discriminate.
    + destruct H as [[H|H]|H]; try discriminate.
      exfalso; apply H; exists name; auto.
    + destruct H as [[H|H]|H]; try discriminate.
      exfalso; apply H; exists name; auto.
    + destruct H as [[H|H]|H]; try discriminate.
      exfalso; apply H; exists name; auto.
    + right. intros [n [E [H1|[H1|H1]]]]; inversion E; subst; contradiction.
Qed.

(** C8: [check_paragraph_presence] answers [True] exactly when some
    paragraph has a span whose offset lies strictly between [start] and
    [end] and whose role is unset or is none of pageHeader, pageFooter,
    pageNumber. *)
Theorem check_paragraph_presence_iff
  (ps : list DocumentParagraph) (start_ stop : Z) :
  check_paragraph_presence ps start_ stop = true <->
  exists p sp,
    In p ps /\ In sp (par_spans p)
    /\ start_ < offset sp /\ offset sp < stop
    /\ (role_unset (role p) \/ ~ role_is_furniture (role p)).
Proof.
  unfold check_paragraph_presence.
  rewrite existsb_exists. split.
  - intros [p [Hp H]]. apply existsb_exists in H.
    destruct H as [sp [Hsp H]].
    apply andb_true_iff in H. destruct H as [H Hr].
    apply andb_true_iff in H. destruct H as [H1 H2].
    exists p, sp. repeat split; auto; try lia.
    apply counts_as_content_spec; assumption.
  - intros [p [sp [Hp [Hsp [H1 [H2 Hr]]]]]].
    exists p. split; [assumption|].
    apply existsb_exists. exists sp. split; [assumption|].
    apply counts_as_content_spec in Hr. rewrite Hr.
    assert (E1 : (start_ <? offset sp) = true) by lia.
    assert (E2 : (offset sp <? stop) = true) by lia.
    rewrite E1, E2. reflexivity.
Qed.

(** ** Candidate search *)

Lemma fold_min_spec (l : list Z) (x : Z) :
  (fold_left Z.min l x = x \/ In (fold_left Z.min l x) l)
  /\ fold_left Z.min l x <= x
  /\ (forall y, In y l -> fold_left Z.min l x <= y).
Proof.
  revert x. induction l as [|a l IH]; intro x; simpl.
  - split; [left; reflexivity|]. split; [lia|]. intros y [].
  - destruct (IH (Z.min x a)) as [H1 [H2 H3]].
    split; [|split].
    + destruct H1 as [H1|H1]; [|auto].
      rewrite H1. destruct (Z.min_spec x a) as [[_ E]|[_ E]]; rewrite E; auto.
    + lia.
    + intros y [Hy|Hy]; [subst; lia | auto].
Qed.

Lemma min_spec (l : list Z) (m : Z) :
  Py.min l = Ok m -> In m l /\ forall y, In y l -> m <= y.
Proof.
  destruct l as [|x l]; simpl; [discriminate|].
  intro H. injection H as <-.
  destruct (fold_min_spec l x) as [H1 [H2 H3]].
  split.
  - destruct H1 as [H1|H1]; [left; symmetry; exact H1 | right; exact H1].
  - intros y [Hy|Hy]; [subst; exact H2 | auto].
Qed.

Lemma min_total (l : list Z) : l <> [] -> exists m, Py.min l = Ok m.
Proof. destruct l; [congruence | simpl; eauto]. Qed.

Lemma max_total (l : list Z) : l <> [] -> exists m, Py.max l = Ok m.
Proof. destruct l; [congruence | simpl; eauto]. Qed.

Lemma candidates_at_app (j : Z) (l1 l2 : list candidate) :
  candidates_at j (l1 ++ l2) = (candidates_at j l1 + candidates_at j l2)%nat.
Proof. unfold candidates_at. rewrite filter_app, length_app. reflexivity. Qed.

Lemma candidates_at_none (j : Z) (l : list candidate) :
  (forall c, In c l -> pre_table_idx c <> j) -> candidates_at j l = O.
Proof.
  unfold candidates_at. induction l as [|c l IH]; intro H; simpl; [reflexivity|].
  destruct (Z.eqb_spec (pre_table_idx c) j) as [E|N].
  - exfalso. apply (H c); simpl; auto.
  - apply IH. intros c' Hc'. apply H. simpl; auto.
Qed.

(** The loop, started at table number [k] with [pre_table_idx = k - 1]:
    where its candidates point, what the one for the first table says, and
    what they say about each adjacent pair of the remaining tables. *)
Lemma find_merge_table_candidates_from_spec (l : list html_table) :
  Forall has_pages l ->
  forall k ppage poff,
  exists cands,
    find_merge_table_candidates_from k (k - 1) ppage poff l = Ok cands
    /\ (forall c, In c cands ->
          k - 1 <= pre_table_idx c < k - 1 + Z.of_nat (List.length l))
    /\ (forall c, In c cands -> pre_table_idx c = k - 1 ->
          exists t rest, l = t :: rest
            /\ Py.min (table_page t) = Ok (ppage + 1)
            /\ start c = poff /\ end_ c = min_offset t)
    /\ (forall t rest, l = t :: rest ->
          Py.min (table_page t) = Ok (ppage + 1) ->
          exists c, In c cands /\ pre_table_idx c = k - 1)
    /\ (candidates_at (k - 1) cands <= 1)%nat
    /\ (forall i a b, nth_error l i = Some a -> nth_error l (S i) = Some b ->
          adjacent_pair_ok cands (k + Z.of_nat i) a b).
Proof.
  induction 1 as [|t rest Ht Hrest IH]; intros k ppage poff.
  - exists []. simpl. split; [reflexivity|].
    split; [intros c []|]. split; [intros c []|].
    split; [intros t rest E; discriminate E|].
    split; [unfold candidates_at; simpl; lia|].
    intros i a b E; destruct i; discriminate E.
  - destruct (min_total _ Ht) as [pg Hpg], (max_total _ Ht) as [lp Hlp].
    destruct (IH (k + 1) lp (max_offset t))
      as [more [Hmore [HA [HB [HC [HD HE]]]]]].
    replace (k + 1 - 1) with k in * by lia.
    cbn [find_merge_table_candidates_from].
    rewrite Hpg, Hlp. cbn [bind]. rewrite Hmore. cbn [bind].
    set (emitted := if pg =? ppage + 1
                    then [ {| pre_table_idx := k - 1; start := poff;
                              end_ := min_offset t |} ] else []).
    exists (emitted ++ more). split; [reflexivity|].
    assert (Hfar : forall c, In c more -> pre_table_idx c <> k - 1)
      by (intros c Hc; specialize (HA c Hc); lia).
    assert (Hnear : forall c, In c emitted ->
               pg = ppage + 1 /\ pre_table_idx c = k - 1
               /\ start c = poff /\ end_ c = min_offset t).
    { intros c Hc. unfold emitted in Hc.
      destruct (Z.eqb_spec pg (ppage + 1)) as [E|N]; [|contradiction].
      destruct Hc as [<-|[]]. simpl. auto. }
    split; [|split; [|split; [|split]]].
    + intros c Hc. cbn [List.length]. apply in_app_or in Hc.
      destruct Hc as [Hc|Hc].
      * apply Hnear in Hc. lia.
      * specialize (HA c Hc). lia.
    + intros c Hc Hidx. apply in_app_or in Hc. destruct Hc as [Hc|Hc].
      * apply Hnear in Hc. destruct Hc as [E [_ [Hs He]]].
        exists t, rest. subst pg. auto.
      * exfalso. exact (Hfar c Hc Hidx).
    + intros t' rest' E Hmin. injection E as E1 E2. subst t' rest'.
      rewrite Hpg in Hmin. injection Hmin as Hmin.
      unfold emitted. rewrite Hmin, Z.eqb_refl.
      eexists. split; [left; reflexivity | reflexivity].
    + rewrite candidates_at_app, (candidates_at_none _ more Hfar).
      unfold emitted.
      destruct (pg =? ppage + 1); unfold candidates_at; simpl;
        try destruct (_ =? _); simpl; lia.
    + intros i a b Ha Hb.
      destruct i as [|i]; simpl in Ha, Hb.
      * injection Ha as Ha. subst a.
        destruct rest as [|b' rest']; [discriminate|].
        injection Hb as Hb. subst b'.
        assert (Hb' : has_pages b) by (inversion Hrest; assumption).
        destruct (min_total _ Hb') as [pb Hpb].
        exists lp, pb. replace (k + Z.of_nat 0) with k by lia.
        split; [exact Hlp|]. split; [exact Hpb|].
        split; [|split].
        -- split.
           ++ intros [c [Hc Hidx]]. apply in_app_or in Hc.
              destruct Hc as [Hc|Hc].
              ** apply Hnear in Hc. lia.
              ** destruct (HB c Hc Hidx) as [t' [r' [E [Hm _]]]].
                 injection E as E1 E2. subst t' r'.
                 rewrite Hpb in Hm. congruence.
           ++ intros E. subst pb.
              destruct (HC b rest' eq_refl Hpb) as [c [Hc Hidx]].
              exists c. split; [apply in_or_app; right; exact Hc | exact Hidx].
        -- intros c Hc Hidx. apply in_app_or in Hc. destruct Hc as [Hc|Hc].
           ++ apply Hnear in Hc. lia.
           ++ destruct (HB c Hc Hidx) as [t' [r' [E [_ [Hs He]]]]].
              injection E as E1 E2. subst t' r'. auto.
        -- rewrite candidates_at_app.
           rewrite (candidates_at_none k emitted)
             by (intros c Hc; apply Hnear in Hc; lia).
           exact HD.
      * destruct (HE i a b Ha Hb) as [pa [pb [Hpa [Hpb [Hiff [Hgap Hcnt]]]]]].
        replace (k + 1 + Z.of_nat i) with (k + Z.of_nat (S i)) in * by lia.
        exists pa, pb.
        split; [exact Hpa|]. split; [exact Hpb|].
        split; [|split].
        -- split.
           ++ intros [c [Hc Hidx]]. apply Hiff. exists c. split; [|exact Hidx].
              apply in_app_or in Hc. destruct Hc as [Hc|Hc]; [|exact Hc].
              apply Hnear in Hc. lia.
           ++ intros E. apply Hiff in E. destruct E as [c [Hc Hidx]].
              exists c. split; [apply in_or_app; right; exact Hc | exact Hidx].
        -- intros c Hc Hidx. apply in_app_or in Hc. destruct Hc as [Hc|Hc].
           ++ apply Hnear in Hc. lia.
           ++ apply (Hgap c Hc Hidx).
        -- rewrite candidates_at_app.
           rewrite (candidates_at_none _ emitted)
             by (intros c Hc; apply Hnear in Hc; lia).
           exact Hcnt.
Qed.

(** C6: on tables that each touch at least one page,
    [find_merge_table_candidates] returns a list in which, for every
    adjacent pair, a candidate naming the earlier table exists exactly when
    the later table's minimum page is the earlier table's maximum page plus
    one; such a candidate carries the gap from the earlier table's
    [max_offset] to the later table's [min_offset]; and there is at most
    one of them. *)
Theorem find_merge_table_candidates_adjacent (tables : list html_table) :
  Forall has_pages tables ->
  exists cands,
    find_merge_table_candidates tables = Ok cands
    /\ forall i a b,
         nth_error tables i = Some a -> nth_error tables (S i) = Some b ->
         adjacent_pair_ok cands (Z.of_nat i) a b.
Proof.
  intro H.
  destruct (find_merge_table_candidates_from_spec tables H 0 (-1) 0)
    as [cands [E [_ [_ [_ [_ HE]]]]]].
  exists cands. split; [exact E|].
  intros i a b Ha Hb. exact (HE i a b Ha Hb).
Qed.

Lemma find_merge_table_candidates_adjacent_witness :
  Forall has_pages [table_A; table_B]
  /\ exists cands,
       find_merge_table_candidates [table_A; table_B] = Ok cands
       /\ forall i a b,
            nth_error [table_A; table_B] i = Some a ->
            nth_error [table_A; table_B] (S i) = Some b ->
            adjacent_pair_ok cands (Z.of_nat i) a b.
Proof.
  assert (H : Forall has_pages [table_A; table_B])
    by (repeat constructor; unfold has_pages; simpl; discriminate).
  split; [exact H|].
  exact (find_merge_table_candidates_adjacent [table_A; table_B] H).
Defined.

(** An index from 0 up to the length reads the element at that position:
    nothing wraps around from the end of the list. *)
Lemma index_in_range {A} (l : list A) (i : Z) :
  0 <= i < Z.of_nat (List.length l) ->
  exists x, nth_error l (Z.to_nat i) = Some x /\ index l i = Ok x.
Proof.
  intros [H0 H1]. unfold index.
  assert (E0 : (i <? 0) = false) by lia.
  assert (E1 : (Z.of_nat (List.length l) <=? i) = false) by lia.
  cbv zeta. rewrite E0. rewrite E0, E1. cbn [orb].
  destruct (nth_error l (Z.to_nat i)) as [x|] eqn:E.
  - exists x. split; reflexivity.
  - apply nth_error_None in E. lia.
Qed.

(** C10: when every table touches at least one page and pages are numbered
    from 1, every candidate of [find_merge_table_candidates] names an
    earlier table at a position [>= 0] whose successor is still inside the
    list. *)
Theorem find_merge_table_candidates_indices_valid (tables : list html_table) :
  Forall pages_from_one tables ->
  exists cands,
    find_merge_table_candidates tables = Ok cands
    /\ forall c, In c cands ->
         0 <= pre_table_idx c
         /\ pre_table_idx c + 1 < Z.of_nat (List.length tables).
Proof.
  intro H.
  assert (Hp : Forall has_pages tables).
  { eapply Forall_impl; [|exact H]. intros t [Ht _]. exact Ht. }
  destruct (find_merge_table_candidates_from_spec tables Hp 0 (-1) 0)
    as [cands [E [HA [HB _]]]].
  exists cands. split; [exact E|].
  intros c Hc. specialize (HA c Hc).
  assert (Hne : pre_table_idx c <> -1).
  { intro Hidx. destruct (HB c Hc Hidx) as [t [rest [El [Hmin _]]]].
    subst tables. inversion H as [|? ? [_ Hpages] _]; subst.
    apply min_spec in Hmin. destruct Hmin as [Hin _].
    rewrite Forall_forall in Hpages. specialize (Hpages _ Hin). lia. }
  lia.
Qed.

Lemma find_merge_table_candidates_indices_valid_witness :
  Forall pages_from_one [table_A; table_B]
  /\ exists cands,
       find_merge_table_candidates [table_A; table_B] = Ok cands
       /\ forall c, In c cands ->
            0 <= pre_table_idx c
            /\ pre_table_idx c + 1 < Z.of_nat (List.length [table_A; table_B]).
Proof.
  assert (H : Forall pages_from_one [table_A; table_B]).
  { repeat constructor; simpl; try discriminate; lia. }
  split; [exact H|].
  exact (find_merge_table_candidates_indices_valid [table_A; table_B] H).
Defined.

(** ** Projection *)

(** *** The parser finds the leading [<table>] *)

Lemma add_child_root (x : node) (st : list frame) (rt : list node) :
  exists more, root (add_child x st rt) = rt ++ more.
Proof.
  destruct st as [|[n ks] rest]; simpl.
  - exists [x]. reflexivity.
  - exists []. rewrite app_nil_r. reflexivity.
Qed.

Lemma pop_to_root (n : ename) (st : list frame) :
  forall pending rt, exists more, root (pop_to n pending st rt) = rt ++ more.
Proof.
  induction st as [|[m ks] rest IH]; intros pending rt; simpl.
  - exists pending. reflexivity.
  - destruct (ename_eqb m n); [apply add_child_root | apply IH].
Qed.

Lemma pop_all_root (st : list frame) :
  forall pending rt, exists more, pop_all pending st rt = rt ++ more.
Proof.
  induction st as [|[m ks] rest IH]; intros pending rt; simpl.
  - exists pending. reflexivity.
  - apply IH.
Qed.

Lemma add_child_leading (x : node) (fs : list frame) (ks : list node) :
  exists fs' ks',
    add_child x (fs ++ [(table, ks)]) []
    = mk_builder (fs' ++ [(table, ks')]) [].
Proof.
  destruct fs as [|[m ks0] fs]; simpl.
  - exists [], (ks ++ [x]). reflexivity.
  - exists ((m, ks0 ++ [x]) :: fs), ks. reflexivity.
Qed.

Lemma pop_to_leading (n : ename) (fs : list frame) :
  forall pending ks,
    leading_table (pop_to n pending (fs ++ [(table, ks)]) []).
Proof.
  induction fs as [|[m ks0] fs IH]; intros pending ks; simpl.
  - right. destruct n; simpl; eexists; eexists; reflexivity.
  - destruct (ename_eqb m n).
    + destruct (add_child_leading (NElem m (ks0 ++ pending)) fs ks)
        as [fs' [ks' E]].
      rewrite E. left. exists fs', ks'. split; reflexivity.
    + apply IH.
Qed.

Lemma feed_leading (b : builder) (t : token) :
  leading_table b -> leading_table (feed b t).
Proof.
  intros [[fs [ks [Es Er]]]|[ks [rest Er]]]; destruct b as [st rt];
    cbn [stack root] in *; subst.
  - destruct t as [n|n|c|s]; unfold feed; cbn [stack root].
    + left. exists ((n, []) :: fs), ks. split; reflexivity.
    + destruct (existsb _ _).
      * apply pop_to_leading.
      * left. exists fs, ks. split; reflexivity.
    + destruct (add_child_leading (NCell c) fs ks) as [fs' [ks' E]].
      rewrite E. left. exists fs', ks'. split; reflexivity.
    + destruct (add_child_leading (NData s) fs ks) as [fs' [ks' E]].
      rewrite E. left. exists fs', ks'. split; reflexivity.
  - right. destruct t as [n|n|c|s]; unfold feed; cbn [stack root].
    + exists ks, rest. reflexivity.
    + destruct (existsb _ _); cbn [stack root].
      * destruct (pop_to_root n st [] (NElem table ks :: rest)) as [more E].
        rewrite E. exists ks, (rest ++ more). reflexivity.
      * exists ks, rest. reflexivity.
    + destruct (add_child_root (NCell c) st (NElem table ks :: rest))
        as [more E].
      rewrite E. exists ks, (rest ++ more). reflexivity.
    + destruct (add_child_root (NData s) st (NElem table ks :: rest))
        as [more E].
      rewrite E. exists ks, (rest ++ more). reflexivity.
Qed.

Lemma fold_feed_leading (m : markup) :
  forall b, leading_table b -> leading_table (fold_left feed m b).
Proof.
  induction m as [|t m IH]; intros b H; simpl; [exact H|].
  apply IH. apply feed_leading. exact H.
Qed.

Lemma pop_all_leading (fs : list frame) :
  forall pending ks, exists ks' rest,
    pop_all pending (fs ++ [(table, ks)]) [] = NElem table ks' :: rest.
Proof.
  induction fs as [|[m ks0] fs IH]; intros pending ks; simpl.
  - eexists; eexists; reflexivity.
  - apply IH.
Qed.

(** Markup that starts with [<table>] parses to a document whose first
    element, in document order, is that table. *)
Lemma find_table_leading (m : markup) :
  exists kids, find_table (BeautifulSoup (Open table :: m)) = Some (NElem table kids).
Proof.
  unfold BeautifulSoup. simpl.
  assert (H : leading_table (fold_left feed m (mk_builder [(table, [])] []))).
  { apply fold_feed_leading. left. exists [], []. split; reflexivity. }
  destruct (fold_left feed m _) as [st rt].
  destruct H as [[fs [ks [Es Er]]]|[ks [rest Er]]]; simpl in *; subst.
  - destruct (pop_all_leading fs [] ks) as [ks' [rest E]]. rewrite E.
    exists ks'. reflexivity.
  - destruct (pop_all_root st [] (NElem table ks :: rest)) as [more E].
    rewrite E. exists ks. reflexivity.
Qed.

Lemma has_table_markup_leading (t : html_table) (m : markup) :
  content t = Open table :: m -> has_table_markup t.
Proof.
  intro E. unfold has_table_markup. rewrite E.
  destruct (find_table_leading m) as [kids Ek]. rewrite Ek. discriminate.
Qed.

(** *** When projection returns *)

Lemma insert_not_nil {A} (leb : A -> A -> bool) (x : A) (l : list A) :
  insert leb x l <> [].
Proof. destruct l as [|y l]; simpl; [|destruct (leb x y)]; discriminate. Qed.

Lemma sorted_nil_iff {A} (leb : A -> A -> bool) (l : list A) :
  sorted leb l = [] <-> l = [].
Proof.
  destruct l as [|x l]; simpl; split; intro H; try reflexivity.
  - exfalso. exact (insert_not_nil leb x _ H).
  - discriminate.
Qed.

Lemma index_0_cons {A} (x : A) (l : list A) : index (x :: l) 0 = Ok x.
Proof.
  unfold index. cbn [List.length].
  replace (0 <? 0) with false by reflexivity.
  replace (0 <? 0) with false by reflexivity.
  destruct (Z.leb_spec (Z.of_nat (S (List.length l))) 0) as [H|H]; [lia|].
  reflexivity.
Qed.

Lemma index_0_nil {A} : index (@nil A) 0 = Raise IndexError.
Proof. reflexivity. Qed.

Lemma table_to_html_step_one (html : markup) (cur : Z) (c : DocumentTableCell) :
  exists more cur', table_to_html_step (html, cur) c = (html ++ more, cur').
Proof.
  unfold table_to_html_step.
  destruct (negb (rowIndex c =? cur)); destruct (columnIndex c =? 0);
    cbn [orb]; repeat rewrite <- app_assoc; eexists; eexists; reflexivity.
Qed.

Lemma table_to_html_step_appends (l : list DocumentTableCell) :
  forall html cur, exists more,
    fst (fold_left table_to_html_step l (html, cur)) = html ++ more.
Proof.
  induction l as [|c l IH]; intros html cur; cbn [fold_left].
  - exists []. rewrite app_nil_r. reflexivity.
  - destruct (table_to_html_step_one html cur c) as [m1 [cur' E1]].
    rewrite E1. destruct (IH (html ++ m1) cur') as [m2 E2]. rewrite E2.
    exists (m1 ++ m2). rewrite app_assoc. reflexivity.
Qed.

Lemma table_to_html_nonempty (t : DocumentTable) :
  cells t <> [] -> exists m, table_to_html t = Ok (Open table :: m).
Proof.
  intro H. unfold table_to_html.
  destruct (sorted cell_key_leb (cells t)) as [|c s] eqn:Es.
  - apply sorted_nil_iff in Es. contradiction.
  - rewrite index_0_cons. cbn [bind].
    destruct (table_to_html_step_appends (c :: s)
                [Open table; Data newline] (rowIndex c)) as [more E].
    destruct (fold_left _ _ _) as [html cur]. simpl in E. subst html.
    eexists. simpl. reflexivity.
Qed.

Lemma table_to_html_empty (t : DocumentTable) :
  cells t = [] -> table_to_html t = Raise IndexError.
Proof. intro H. unfold table_to_html. rewrite H. reflexivity. Qed.

Lemma get_table_span_offsets_fold (l : list DocumentSpan) :
  forall mn0 mx0 mn mx,
    fold_left get_table_span_offsets_step l (mn0, mx0) = (mn, mx) ->
    mn <= mn0 /\ mx0 <= mx
    /\ (forall s, In s l -> mn <= offset s /\ offset s + span_length s <= mx)
    /\ (mn = mn0 \/ exists s, In s l /\ mn = offset s)
    /\ (mx = mx0 \/ exists s, In s l /\ mx = offset s + span_length s).
Proof.
  induction l as [|a l IH]; intros mn0 mx0 mn mx H; simpl in H.
  - injection H as <- <-. split; [lia|]. split; [lia|].
    split; [intros s []|]. split; left; reflexivity.
  - apply IH in H. destruct H as [H1 [H2 [H3 [H4 H5]]]].
    destruct (Z.ltb_spec (offset a) mn0) as [L1|L1];
      destruct (Z.ltb_spec mx0 (offset a + span_length a)) as [L2|L2];
      (split; [lia|]; split; [lia|]; split;
       [intros s [<-|Hs]; [lia | apply H3; exact Hs]|]; split;
       [destruct H4 as [H4|[s4 [Hs H4]]];
        [first [left; exact H4
               | right; exists a; split; [left; reflexivity | exact H4]]
        | right; exists s4; split; [right; exact Hs | exact H4]]
       |destruct H5 as [H5|[s5 [Hs H5]]];
        [first [left; exact H5
               | right; exists a; split; [left; reflexivity | exact H5]]
        | right; exists s5; split; [right; exact Hs | exact H5]]]).
Qed.

(** The offsets [get_table_span_offsets] returns are the least offset and
    the greatest end of the table's own spans. *)
Lemma get_table_span_offsets_spec (t : DocumentTable) :
  spans t <> [] ->
  exists mn mx,
    get_table_span_offsets t = Ok (mn, mx)
    /\ (forall s, In s (spans t) ->
          mn <= offset s /\ offset s + span_length s <= mx)
    /\ (exists s, In s (spans t) /\ mn = offset s)
    /\ (exists s, In s (spans t) /\ mx = offset s + span_length s).
Proof.
  intro H. unfold get_table_span_offsets.
  destruct (spans t) as [|s0 l] eqn:Es; [congruence|].
  rewrite index_0_cons. cbn [bind].
  destruct (fold_left get_table_span_offsets_step (s0 :: l)
              (offset s0, offset s0 + span_length s0)) as [mn mx] eqn:Ef.
  apply get_table_span_offsets_fold in Ef.
  destruct Ef as [H1 [H2 [H3 [H4 H5]]]].
  exists mn, mx. split; [reflexivity|]. split; [exact H3|]. split.
  - destruct H4 as [H4|H4]; [|exact H4].
    exists s0. split; [left; reflexivity | exact H4].
  - destruct H5 as [H5|H5]; [|exact H5].
    exists s0. split; [left; reflexivity | exact H5].
Qed.

Lemma get_table_span_offsets_empty (t : DocumentTable) :
  spans t = [] -> get_table_span_offsets t = Raise IndexError.
Proof. intro H. unfold get_table_span_offsets. rewrite H. reflexivity. Qed.

Lemma prepare_html_table_returns (t : DocumentTable) :
  spans t <> [] -> cells t <> [] ->
  exists mn mx m souptable,
    get_table_span_offsets t = Ok (mn, mx)
    /\ table_to_html t = Ok m
    /\ find_table (BeautifulSoup m) = Some souptable
    /\ prepare_html_table t
       = Ok {| min_offset := mn;
               max_offset := mx;
               table_page := get_table_page_numbers t;
               column_count := column_count_ t;
               header_row_count :=
                 Z.of_nat (List.length (find_header_rows souptable));
               header_text := sorted String.leb (th_texts (BeautifulSoup m));
               non_header_row_count :=
                 row_count t
                 - Z.of_nat (List.length (find_header_rows souptable));
               content := m |}.
Proof.
  intros Hs Hc.
  destruct (get_table_span_offsets_spec t Hs) as [mn [mx [Eo _]]].
  destruct (table_to_html_nonempty t Hc) as [m Em].
  destruct (find_table_leading m) as [kids Ek].
  exists mn, mx, (Open table :: m), (NElem table kids).
  split; [exact Eo|]. split; [exact Em|]. split; [exact Ek|].
  unfold prepare_html_table. rewrite Eo. cbn [bind]. rewrite Em. cbn [bind].
  rewrite Ek. reflexivity.
Qed.

Lemma prepare_html_table_has_table (t : DocumentTable) (r : html_table) :
  prepare_html_table t = Ok r -> has_table_markup r.
Proof.
  intro H.
  destruct (spans t) as [|s0 ss] eqn:Es.
  - unfold prepare_html_table in H.
    rewrite (get_table_span_offsets_empty t Es) in H. discriminate.
  - destruct (cells t) as [|c0 cs] eqn:Ec.
    + unfold prepare_html_table in H.
      destruct (get_table_span_offsets t) as [[mn mx]|e]; [|discriminate].
      cbn [bind] in H. rewrite (table_to_html_empty t Ec) in H. discriminate.
    + assert (Hc : cells t <> []) by (rewrite Ec; discriminate).
      assert (Hs : spans t <> []) by (rewrite Es; discriminate).
      destruct (table_to_html_nonempty t Hc) as [m Em].
      destruct (prepare_html_table_returns t Hs Hc)
        as [mn [mx [m' [st [_ [Em' [_ E]]]]]]].
      rewrite Em in Em'. injection Em' as <-.
      rewrite E in H. injection H as <-.
      eapply has_table_markup_leading. reflexivity.
Qed.




(** C9, as the code has it: without cells projection raises [IndexError];
    with at least one cell, at least one span of its own and plain text in
    every cell it returns a record. *)
Theorem projection_needs_cells_and_spans (t : DocumentTable) :
  (cells t = [] -> prepare_html_table t = Raise IndexError)
  /\ (cells t <> [] -> spans t <> [] -> plain_cells t ->
      exists r, prepare_html_table t = Ok r).
Proof.
  split.
  - intro Hc. unfold prepare_html_table.
    destruct (spans t) as [|s0 l] eqn:Es.
    + rewrite (get_table_span_offsets_empty t Es). reflexivity.
    + assert (Hs : spans t <> []) by (rewrite Es; discriminate).
      destruct (get_table_span_offsets_spec t Hs) as [mn [mx [Eo _]]].
      rewrite Eo. cbn [bind]. rewrite (table_to_html_empty t Hc).
      reflexivity.
  - intros Hc Hs _.
    destruct (prepare_html_table_returns t Hs Hc)
      as [mn [mx [m [st [_ [_ [_ E]]]]]]].
    eexists. exact E.
Qed.

Lemma projection_needs_cells_and_spans_witness :
  cells table_no_cells = []
  /\ prepare_html_table table_no_cells = Raise IndexError
  /\ cells table_wide_cell <> [] /\ spans table_wide_cell <> []
  /\ plain_cells table_wide_cell
  /\ exists r, prepare_html_table table_wide_cell = Ok r.
Proof.
  assert (Hs : spans table_wide_cell <> []) by (simpl; discriminate).
  assert (Hc : cells table_wide_cell <> []) by (simpl; discriminate).
  assert (Hp : plain_cells table_wide_cell)
    by (constructor; [reflexivity | constructor]).
  split; [reflexivity|].
  split; [exact (proj1 (projection_needs_cells_and_spans table_no_cells) eq_refl)|].
  split; [exact Hc|]. split; [exact Hs|]. split; [exact Hp|].
  exact (proj2 (projection_needs_cells_and_spans table_wide_cell) Hc Hs Hp).
Defined.

(** C9 as stated fails: a table with one cell and no span of its own is
    not projected, and what a table without cells raises is the built-in
    [IndexError]. *)
Lemma projection_fails_on_spanless_table :
  cells table_no_spans <> []
  /\ prepare_html_table table_no_spans = Raise IndexError
  /\ prepare_html_table table_no_cells = Raise IndexError.
Proof.
  split; [simpl; discriminate|]. split; reflexivity.
Qed.

(** ** Header rows of a projected table *)

(** C4 as stated fails: [table_late_header] has a body row above a header
    row; projection counts one header row, and no leading row of the
    rendering holds a header cell. *)
Lemma header_row_count_counts_late_header :
  exists r tbl,
    prepare_html_table table_late_header = Ok r
    /\ find_table (BeautifulSoup (content r)) = Some tbl
    /\ header_row_count r = 1
    /\ leading_rows_with_header (find_all_tr tbl) = O
    /\ leading_rows_all_header (find_all_tr tbl) = O.
Proof.
  eexists. eexists. split; [vm_compute; reflexivity|].
  split; [vm_compute; reflexivity|].
  repeat split; vm_compute; reflexivity.
Qed.

(** *** The parse of a grid with one [<tr>] per row *)

Lemma feed_cell_in_row done current c :
  feed (open_row done current) (Leaf (render_cell c))
  = open_row done (current ++ [c]).
Proof.
  unfold open_row, feed, add_child, row_kids. cbn [stack root].
  rewrite map_app. reflexivity.
Qed.

Lemma feed_next_row done current c :
  fold_left feed [Close tr; Open tr; Leaf (render_cell c)]
    (open_row done current)
  = open_row (done ++ [current]) [c].
Proof.
  unfold open_row. cbn. rewrite app_nil_r, map_app. reflexivity.
Qed.

Lemma grid_parse (l : list DocumentTableCell) :
  forall done current cur html html' cur',
    rows_continue cur l = true ->
    fold_left feed html (mk_builder [] []) = open_row done current ->
    fold_left table_to_html_step l (html, cur) = (html', cur') ->
    fold_left feed html' (mk_builder [] [])
    = open_row (fst (group_rows done current cur l))
               (snd (group_rows done current cur l)).
Proof.
  induction l as [|c l IH]; intros done current cur html html' cur' Hw Hp Hs.
  - simpl in Hs. injection Hs as <- <-. exact Hp.
  - cbn [fold_left] in Hs. cbn [rows_continue] in Hw. cbn [group_rows].
    unfold table_to_html_step in Hs.
    destruct (Z.eqb_spec (rowIndex c) cur) as [E|N].
    + apply andb_true_iff in Hw. destruct Hw as [Hcol Hw].
      apply negb_true_iff in Hcol. rewrite Hcol in Hs. cbn in Hs.
      eapply IH; [exact Hw | | exact Hs].
      rewrite fold_left_app, Hp. cbn [fold_left].
      apply feed_cell_in_row.
    + cbn in Hs. rewrite orb_true_r in Hs.
      eapply IH; [exact Hw | | exact Hs].
      rewrite <- !app_assoc. rewrite fold_left_app, Hp.
      apply feed_next_row.
Qed.

(** The document [table_to_html] renders for such a grid: one [<table>]
    holding the line break and one [<tr>] per row. *)
Lemma table_to_html_grid (t : DocumentTable) (c0 : DocumentTableCell)
  (rest : list DocumentTableCell) :
  visit_order t = c0 :: rest ->
  one_tr_per_row (c0 :: rest) = true ->
  exists m,
    table_to_html t = Ok m
    /\ BeautifulSoup m
       = [NElem table
            (NData newline
             :: map row_node
                  (fst (group_rows [] [c0] (rowIndex c0) rest)
                   ++ [snd (group_rows [] [c0] (rowIndex c0) rest)]))].
Proof.
  intros Ev Hw. unfold visit_order in Ev. unfold table_to_html.
  rewrite Ev, index_0_cons. cbn [bind].
  cbn [one_tr_per_row] in Hw. apply andb_true_iff in Hw.
  destruct Hw as [Hcol Hw].
  cbn [fold_left]. unfold table_to_html_step at 2.
  rewrite Z.eqb_refl, Hcol. cbn [negb orb].
  destruct (fold_left table_to_html_step rest _) as [html' cur'] eqn:Es.
  eexists. split; [reflexivity|].
  unfold BeautifulSoup. rewrite fold_left_app.
  rewrite (grid_parse rest [] [c0] (rowIndex c0) _ html' cur' Hw
             (eq_refl : fold_left feed
                          ([Open table; Data newline] ++ [Open tr]
                           ++ [Leaf (render_cell c0)])
                          (mk_builder [] [])
                        = open_row [] [c0])).
  - unfold open_row. cbn. rewrite !app_nil_r, map_app. reflexivity.
  - rewrite <- Es. f_equal.
Qed.

(** *** Header rows found in that document *)

Lemma descendants_row_node (r : list DocumentTableCell) :
  descendants (row_node r) = row_kids r.
Proof.
  unfold row_node, row_kids. cbn [descendants].
  induction r as [|c r IH]; simpl; [reflexivity|]. rewrite IH. reflexivity.
Qed.

Lemma is_th_render_cell (c : DocumentTableCell) :
  is_th (NCell (render_cell c)) = is_column_header c.
Proof. unfold is_th, render_cell. simpl. destruct (is_column_header c); reflexivity. Qed.

Lemma has_th_row_node (r : list DocumentTableCell) :
  has_th (row_node r) = existsb is_column_header r.
Proof.
  unfold has_th. rewrite descendants_row_node. unfold row_kids.
  induction r as [|c r IH]; simpl; [reflexivity|].
  rewrite IH. unfold render_cell. simpl.
  destruct (is_column_header c); reflexivity.
Qed.

Lemma filter_rows_of_cells (p : node -> bool) (r : list DocumentTableCell) :
  (forall c, p (NCell c) = false) -> filter p (row_kids r) = [].
Proof.
  intro H. unfold row_kids. induction r as [|c r IH]; simpl; [reflexivity|].
  rewrite H. exact IH.
Qed.

Lemma find_header_rows_grid (s : string) (rows : list (list DocumentTableCell)) :
  find_header_rows (NElem table (NData s :: map row_node rows))
  = map row_node (filter (existsb is_column_header) rows).
Proof.
  unfold find_header_rows. cbn [descendants flat_map app filter is_elem andb].
  induction rows as [|r rows IH]; [reflexivity|].
  cbn [map flat_map]. rewrite descendants_row_node.
  cbn [app filter]. rewrite filter_app, IH.
  rewrite filter_rows_of_cells by reflexivity.
  rewrite has_th_row_node. cbn [is_elem row_node ename_eqb andb].
  destruct (existsb is_column_header r); reflexivity.
Qed.

(** *** Counting rows with a header cell *)

Lemma header_rows_of_app (a b : list DocumentTableCell) :
  header_rows_of (a ++ b) = header_rows_of a ++ header_rows_of b.
Proof. unfold header_rows_of. rewrite filter_app, map_app. reflexivity. Qed.

Lemma header_rows_of_in (v : Z) (l : list DocumentTableCell) :
  In v (header_rows_of l)
  <-> exists c, In c l /\ is_column_header c = true /\ rowIndex c = v.
Proof.
  unfold header_rows_of. rewrite in_map_iff. split.
  - intros [c [E H]]. apply filter_In in H. exists c. tauto.
  - intros [c [H1 [H2 H3]]]. exists c. split; [exact H3|].
    apply filter_In. tauto.
Qed.

Lemma nodup_length_const (v : Z) (l : list Z) :
  (forall x, In x l -> x = v) ->
  List.length (nodup Z.eq_dec l) = match l with [] => O | _ => 1%nat end.
Proof.
  induction l as [|a l IH]; intro H; [reflexivity|].
  cbn [nodup]. destruct (in_dec Z.eq_dec a l) as [Hin|Hnin].
  - rewrite IH by (intros x Hx; apply H; right; exact Hx).
    destruct l; [contradiction | reflexivity].
  - destruct l as [|b l]; [reflexivity|].
    exfalso. apply Hnin. left.
    rewrite (H a) by (left; reflexivity).
    apply H. right. left. reflexivity.
Qed.

Lemma nodup_length_app_disjoint (a b : list Z) :
  (forall x, In x a -> ~ In x b) ->
  List.length (nodup Z.eq_dec (a ++ b))
  = (List.length (nodup Z.eq_dec a) + List.length (nodup Z.eq_dec b))%nat.
Proof.
  induction a as [|x a IH]; intro H; [reflexivity|].
  cbn [app nodup].
  assert (IH' := IH (fun y Hy => H y (or_intror Hy))).
  destruct (in_dec Z.eq_dec x (a ++ b)) as [Hin|Hnin];
    destruct (in_dec Z.eq_dec x a) as [Hin'|Hnin']; cbn [List.length].
  - exact IH'.
  - exfalso. apply in_app_or in Hin. destruct Hin as [Hin|Hin];
      [contradiction | exact (H x (or_introl eq_refl) Hin)].
  - exfalso. apply Hnin. apply in_or_app. left. exact Hin'.
  - rewrite IH'. reflexivity.
Qed.

Lemma existsb_header_rows_of (l : list DocumentTableCell) :
  (if existsb is_column_header l then 1%nat else O)
  = match header_rows_of l with [] => O | _ => 1%nat end.
Proof.
  unfold header_rows_of. induction l as [|c l IH]; [reflexivity|].
  cbn [existsb filter]. destruct (is_column_header c); [reflexivity|].
  exact IH.
Qed.

Lemma header_row_of_one_row (cur : Z) (current : list DocumentTableCell) :
  (forall x, In x current -> rowIndex x = cur) ->
  List.length (filter (existsb is_column_header) [current])
  = List.length (nodup Z.eq_dec (header_rows_of current)).
Proof.
  intro H.
  rewrite (nodup_length_const cur).
  - rewrite <- existsb_header_rows_of. cbn [filter].
    destruct (existsb is_column_header current); reflexivity.
  - intros x Hx. apply header_rows_of_in in Hx.
    destruct Hx as [c [Hc [_ Hr]]]. rewrite <- Hr. apply H. exact Hc.
Qed.

Lemma filter_header_snoc (done : list (list DocumentTableCell))
  (current : list DocumentTableCell) :
  List.length (filter (existsb is_column_header) (done ++ [current]))
  = (List.length (filter (existsb is_column_header) done)
     + List.length (filter (existsb is_column_header) [current]))%nat.
Proof. rewrite filter_app, length_app. reflexivity. Qed.

(** Along cells whose row indices never decrease, the rows gathered that
    hold a header cell are as many as the distinct row indices of the
    header cells. *)
Lemma group_rows_count (l : list DocumentTableCell) :
  forall done current cur,
    (forall x, In x current -> rowIndex x = cur) ->
    rows_ascend l ->
    (forall x, In x l -> cur <= rowIndex x) ->
    List.length
      (filter (existsb is_column_header)
         (fst (group_rows done current cur l)
          ++ [snd (group_rows done current cur l)]))
    = (List.length (filter (existsb is_column_header) done)
       + List.length (nodup Z.eq_dec (header_rows_of (current ++ l))))%nat.
Proof.
  induction l as [|c l IH]; intros done current cur Hcur Hasc Hge.
  - cbn [group_rows fst snd]. rewrite app_nil_r, filter_header_snoc.
    rewrite (header_row_of_one_row cur current Hcur). reflexivity.
  - cbn [group_rows]. destruct Hasc as [Hc Hasc].
    destruct (Z.eqb_spec (rowIndex c) cur) as [E|N].
    + rewrite (IH done (current ++ [c]) cur).
      * rewrite <- app_assoc. reflexivity.
      * intros x Hx. apply in_app_or in Hx.
        destruct Hx as [Hx|[<-|[]]]; [apply Hcur; exact Hx | exact E].
      * exact Hasc.
      * intros x Hx. apply Hge. right. exact Hx.
    + assert (Hlt : cur < rowIndex c).
      { specialize (Hge c (or_introl eq_refl)). lia. }
      rewrite (IH (done ++ [current]) [c] (rowIndex c)).
      * rewrite filter_header_snoc.
        rewrite (header_row_of_one_row cur current Hcur).
        rewrite (header_rows_of_app current (c :: l)).
        rewrite (nodup_length_app_disjoint (header_rows_of current)).
        -- cbn [app]. lia.
        -- intros v Hv Hv'. apply header_rows_of_in in Hv, Hv'.
           destruct Hv as [x [Hx [_ Ex]]]. destruct Hv' as [y [Hy [_ Ey]]].
           specialize (Hcur x Hx).
           assert (rowIndex c <= rowIndex y).
           { destruct Hy as [<-|Hy]; [lia | apply Hc; exact Hy]. }
           lia.
      * intros x [<-|[]]. reflexivity.
      * exact Hasc.
      * exact Hc.
Qed.

(** *** The visiting order *)

Lemma insert_in {A} (leb : A -> A -> bool) (x z : A) (l : list A) :
  In z (insert leb x l) <-> z = x \/ In z l.
Proof.
  induction l as [|y l IH]; simpl.
  - intuition.
  - destruct (leb x y); simpl; [intuition|]. rewrite IH. intuition.
Qed.

Lemma sorted_in {A} (leb : A -> A -> bool) (z : A) (l : list A) :
  In z (sorted leb l) <-> In z l.
Proof.
  induction l as [|x l IH]; simpl; [tauto|].
  rewrite insert_in, IH. intuition.
Qed.

Lemma cell_key_leb_rows (x y : DocumentTableCell) :
  (cell_key_leb x y = true -> rowIndex x <= rowIndex y)
  /\ (cell_key_leb x y = false -> rowIndex y <= rowIndex x).
Proof.
  unfold cell_key_leb.
  destruct (Z.ltb_spec (rowIndex x) (rowIndex y));
    destruct (Z.eqb_spec (rowIndex x) (rowIndex y));
    destruct (Z.leb_spec (columnIndex x) (columnIndex y));
    simpl; split; intro; try discriminate; lia.
Qed.

Lemma insert_rows_ascend (x : DocumentTableCell) (l : list DocumentTableCell) :
  rows_ascend l -> rows_ascend (insert cell_key_leb x l).
Proof.
  induction l as [|y l IH]; intro H; simpl.
  - split; [intros z []| exact I].
  - destruct H as [Hy Hl].
    destruct (cell_key_leb x y) eqn:E.
    + apply cell_key_leb_rows in E. split.
      * intros z [<-|Hz]; [exact E|]. specialize (Hy z Hz). lia.
      * split; assumption.
    + apply cell_key_leb_rows in E. split.
      * intros z Hz. apply insert_in in Hz.
        destruct Hz as [->|Hz]; [exact E | apply Hy; exact Hz].
      * apply IH. exact Hl.
Qed.

Lemma sorted_rows_ascend (l : list DocumentTableCell) :
  rows_ascend (sorted cell_key_leb l).
Proof.
  induction l as [|x l IH]; simpl; [exact I|].
  apply insert_rows_ascend. exact IH.
Qed.

Lemma nodup_length_same_elements (a b : list Z) :
  (forall v, In v a <-> In v b) ->
  List.length (nodup Z.eq_dec a) = List.length (nodup Z.eq_dec b).
Proof.
  intro H. apply Nat.le_antisymm; apply NoDup_incl_length;
    try apply NoDup_nodup; intros v Hv; apply nodup_In; apply nodup_In in Hv;
    apply H; exact Hv.
Qed.

Lemma header_row_indices_visit_order (t : DocumentTable) :
  List.length (header_row_indices (visit_order t))
  = List.length (header_row_indices (cells t)).
Proof.
  unfold header_row_indices. apply nodup_length_same_elements.
  intro v. fold (header_rows_of (visit_order t)).
  fold (header_rows_of (cells t)). rewrite !header_rows_of_in.
  unfold visit_order. split; intros [c [Hc H]]; exists c;
    (split; [apply sorted_in in Hc || apply sorted_in; exact Hc | exact H]).
Qed.

(** C4, as the code has it: for a raw table with a span of its own whose
    grid gives one [<tr>] per row and whose cells hold plain text, the
    projected [header_row_count] is the number of rows, leading or not,
    that hold at least one cell of kind columnHeader. *)
Theorem header_row_count_counts_header_rows (t : DocumentTable) :
  spans t <> [] ->
  one_tr_per_row (visit_order t) = true ->
  plain_cells t ->
  exists r,
    prepare_html_table t = Ok r
    /\ header_row_count r
       = Z.of_nat (List.length (header_row_indices (cells t))).
Proof.
  intros Hs Hw _.
  destruct (visit_order t) as [|c0 rest] eqn:Ev; [discriminate|].
  destruct (table_to_html_grid t c0 rest Ev Hw) as [m [Em Eb]].
  destruct (get_table_span_offsets_spec t Hs) as [mn [mx [Eo _]]].
  unfold prepare_html_table. rewrite Eo. cbn [bind]. rewrite Em. cbn [bind].
  rewrite Eb.
  change (find_table [NElem table ?k]) with (Some (NElem table k)).
  eexists. split; [reflexivity|]. cbn [header_row_count].
  rewrite find_header_rows_grid, length_map.
  assert (Hasc := sorted_rows_ascend (cells t)).
  fold (visit_order t) in Hasc. rewrite Ev in Hasc. destruct Hasc as [Hc Hasc].
  rewrite (group_rows_count rest [] [c0] (rowIndex c0)).
  - cbn [filter List.length Nat.add app].
    rewrite <- header_row_indices_visit_order, Ev. reflexivity.
  - intros x [<-|[]]. reflexivity.
  - exact Hasc.
  - exact Hc.
Qed.

Lemma header_row_count_counts_header_rows_witness :
  spans table_late_header <> []
  /\ one_tr_per_row (visit_order table_late_header) = true
  /\ plain_cells table_late_header
  /\ exists r,
       prepare_html_table table_late_header = Ok r
       /\ header_row_count r
          = Z.of_nat (List.length (header_row_indices (cells table_late_header))).
Proof.
  assert (Hs : spans table_late_header <> []) by (simpl; discriminate).
  assert (Hp : plain_cells table_late_header)
    by (constructor; [reflexivity | constructor; [reflexivity | constructor]]).
  split; [exact Hs|]. split; [reflexivity|]. split; [exact Hp|].
  exact (header_row_count_counts_header_rows table_late_header Hs eq_refl Hp).
Defined.

(** ** Merging *)

(** Projection and both merges establish [has_table_markup]. *)

Lemma find_table_is_table (soup : list node) (x : node) :
  find_table soup = Some x -> exists kids, x = NElem table kids.
Proof.
  unfold find_table. intro H. apply find_some in H. destruct H as [_ H].
  destruct x as [s|c|n kids]; try discriminate.
  destruct n; [|discriminate]. exists kids. reflexivity.
Qed.

Lemma append_columns_table (kids : list node) (cols : list (list node)) :
  exists kids', fst (append_columns (NElem table kids) cols) = NElem table kids'.
Proof.
  cbn [append_columns].
  destruct ((fix go (l : list node) (cols0 : list (list node)) :=
               match l with
               | [] => ([], cols0)
               | y :: l' =>
                   let '(y', cols1) := append_columns y cols0 in
                   let '(l'', cols2) := go l' cols1 in (y' :: l'', cols2)
               end) kids cols) as [kids' cols'].
  eexists. reflexivity.
Qed.

Lemma merge_tables_colum_wise_has_table (a b m : html_table) :
  merge_tables_colum_wise a b = Ok m -> has_table_markup m.
Proof.
  unfold merge_tables_colum_wise.
  destruct (find_table (BeautifulSoup (content a))) as [ta|] eqn:Ea;
    [|discriminate].
  destruct (find_table (BeautifulSoup (content b))) as [tb|]; [|discriminate].
  destruct (find_table_is_table _ _ Ea) as [kids ->].
  intro H. cbv zeta in H.
  destruct (append_columns_table kids
              (firstn (List.length (find_all_tr (NElem table kids)))
                 (columns_by_row false tb))) as [kids' E].
  rewrite E in H. injection H as <-.
  eapply has_table_markup_leading. reflexivity.
Qed.

Lemma merge_tables_row_wise_has_table (a b m : html_table) :
  has_table_markup a ->
  merge_tables_row_wise a b = Ok m -> has_table_markup m.
Proof.
  unfold has_table_markup at 1, merge_tables_row_wise. intro Ha.
  destruct (find_table (BeautifulSoup (content b))) as [tb|]; [|discriminate].
  destruct (find_table (BeautifulSoup (content a))) as [ta|] eqn:Ea;
    [|congruence].
  destruct (find_table_is_table _ _ Ea) as [kids ->].
  cbn [bind]. intro H. injection H as <-.
  eapply has_table_markup_leading. reflexivity.
Qed.

(** C7: on two tables whose markup holds a [<table>] element both merges
    return a record.  Column-wise, under equal [header_row_count] and equal
    [non_header_row_count], the merged [non_header_row_count] is that of
    either table and the merged [column_count] is the sum of the two;
    row-wise, the merged [non_header_row_count] is the sum of the two and
    [column_count], [header_row_count] and [header_text] are the first
    table's. *)
Theorem merge_counts (a b : html_table) :
  has_table_markup a -> has_table_markup b ->
  (header_row_count a = header_row_count b ->
   non_header_row_count a = non_header_row_count b ->
   exists m,
     merge_tables_colum_wise a b = Ok m
     /\ non_header_row_count m = non_header_row_count a
     /\ non_header_row_count m = non_header_row_count b
     /\ column_count m = column_count a + column_count b)
  /\ (exists m,
        merge_tables_row_wise a b = Ok m
        /\ non_header_row_count m
           = non_header_row_count a + non_header_row_count b
        /\ column_count m = column_count a
        /\ header_row_count m = header_row_count a
        /\ header_text m = header_text a).
Proof.
  unfold has_table_markup, merge_tables_colum_wise, merge_tables_row_wise.
  intros Ha Hb.
  destruct (find_table (BeautifulSoup (content a))) as [ta|] eqn:Ea;
    [|congruence].
  destruct (find_table (BeautifulSoup (content b))) as [tb|] eqn:Eb;
    [|congruence].
  split.
  - intros Hh Hn. eexists. split; [reflexivity|]. simpl. auto.
  - simpl. eexists. split; [reflexivity|]. simpl. auto.
Qed.

Lemma merge_counts_witness :
  has_table_markup table_A /\ has_table_markup table_B
  /\ header_row_count table_A = header_row_count table_B
  /\ non_header_row_count table_A = non_header_row_count table_B
  /\ (exists m,
        merge_tables_colum_wise table_A table_B = Ok m
        /\ non_header_row_count m = non_header_row_count table_A
        /\ non_header_row_count m = non_header_row_count table_B
        /\ column_count m = column_count table_A + column_count table_B)
  /\ (exists m,
        merge_tables_row_wise table_A table_B = Ok m
        /\ non_header_row_count m
           = non_header_row_count table_A + non_header_row_count table_B
        /\ column_count m = column_count table_A
        /\ header_row_count m = header_row_count table_A
        /\ header_text m = header_text table_A).
Proof.
  assert (Ha : has_table_markup table_A) by (vm_compute; discriminate).
  assert (Hb : has_table_markup table_B) by (vm_compute; discriminate).
  split; [exact Ha|]. split; [exact Hb|].
  split; [reflexivity|]. split; [reflexivity|].
  split.
  - exact (proj1 (merge_counts table_A table_B Ha Hb) eq_refl eq_refl).
  - exact (proj2 (merge_counts table_A table_B Ha Hb)).
Defined.

(** ** The merge passes *)

(** Neither pass looks at the paragraphs: the answer of
    [check_paragraph_presence] is overwritten before it is used. *)
Lemma column_wise_step_any_paragraphs
  (ps ps' : list DocumentParagraph) (tabs : working_list) (c : candidate) :
  column_wise_step ps tabs c = column_wise_step ps' tabs c.
Proof. reflexivity. Qed.

Lemma row_wise_step_any_paragraphs
  (ps ps' : list DocumentParagraph) (tabs : working_list) (c : candidate) :
  row_wise_step ps tabs c = row_wise_step ps' tabs c.
Proof. reflexivity. Qed.

Lemma check_and_merge_column_wise_any_paragraphs
  (ps ps' : list DocumentParagraph) (cands : list candidate) :
  forall tabs,
    check_and_merge_column_wise ps tabs cands
    = check_and_merge_column_wise ps' tabs cands.
Proof.
  induction cands as [|c cands IH]; intro tabs; simpl; [reflexivity|].
  rewrite (column_wise_step_any_paragraphs ps ps').
  destruct (column_wise_step ps' tabs c); simpl; [apply IH | reflexivity].
Qed.

Lemma check_and_merge_row_wise_any_paragraphs
  (ps ps' : list DocumentParagraph) (cands : list candidate) :
  forall tabs,
    check_and_merge_row_wise ps tabs cands
    = check_and_merge_row_wise ps' tabs cands.
Proof.
  induction cands as [|c cands IH]; intro tabs; simpl; [reflexivity|].
  rewrite (row_wise_step_any_paragraphs ps ps').
  destruct (row_wise_step ps' tabs c); simpl; [apply IH | reflexivity].
Qed.

(** C1, on the code: [table_A] (page 1, up to offset 400) and [table_B]
    (page 2, from offset 420) are a candidate pair, a paragraph without a
    role sits at offset 410, [check_paragraph_presence] answers [True] for
    the gap, and both passes merge the pair all the same: the earlier slot
    becomes [None], the later one holds the merged table. *)
Theorem merge_passes_merge_across_paragraph :
  find_merge_table_candidates [table_A; table_B]
  = Ok [ {| pre_table_idx := 0; start := 400; end_ := 420 |} ]
  /\ check_paragraph_presence [gap_paragraph] 400 420 = true
  /\ (exists m,
        merge_tables_colum_wise table_A table_B = Ok m
        /\ check_and_merge_column_wise [gap_paragraph]
             [Some table_A; Some table_B]
             [ {| pre_table_idx := 0; start := 400; end_ := 420 |} ]
           = Ok [None; Some m])
  /\ (exists m,
        merge_tables_row_wise table_A table_B = Ok m
        /\ check_and_merge_row_wise [gap_paragraph]
             [Some table_A; Some table_B]
             [ {| pre_table_idx := 0; start := 400; end_ := 420 |} ]
           = Ok [None; Some m]).
Proof.
  split; [reflexivity|]. split; [reflexivity|].
  split; eexists; split; vm_compute; reflexivity.
Qed.

(** ** Chunking *)

Lemma slice_step {A} (l : list A) (i n : Z) :
  slice l i (i + n) = firstn (Z.to_nat n) (skipn (Z.to_nat i) l).
Proof. unfold slice. replace (i + n - i) with n by lia. reflexivity. Qed.

Lemma range_up_chunks {A} (l : list A) (n : Z) :
  0 < n ->
  forall fuel i,
    0 <= i ->
    (Z.to_nat (Z.of_nat (List.length l) - i) <= fuel)%nat ->
    let groups := map (fun j => slice l j (j + n))
                    (range_up fuel i (Z.of_nat (List.length l)) n) in
    List.concat groups = skipn (Z.to_nat i) l
    /\ Forall (fun g => (List.length g <= Z.to_nat n)%nat) groups.
Proof.
  intros Hn fuel. induction fuel as [|fuel IH]; intros i Hi Hfuel; simpl.
  - split; [|constructor].
    symmetry. apply skipn_all2. lia.
  - destruct (Z.ltb_spec i (Z.of_nat (List.length l))) as [Hlt|Hge]; simpl.
    + destruct (IH (i + n)) as [Hc Hf]; [lia | lia |].
      split.
      * rewrite Hc, slice_step.
        replace (Z.to_nat (i + n)) with (Z.to_nat n + Z.to_nat i)%nat by lia.
        rewrite <- skipn_skipn. apply firstn_skipn.
      * constructor; [|exact Hf].
        rewrite slice_step. rewrite length_firstn. lia.
    + split; [|constructor].
      symmetry. apply skipn_all2. lia.
Qed.

(** [chunks] with a positive size cuts the list into consecutive groups of
    at most that many elements. *)
Lemma chunks_spec {A} (l : list A) (n : Z) :
  0 < n ->
  exists groups,
    chunks l 0 n = Ok groups
    /\ List.concat groups = l
    /\ Forall (fun g => (List.length g <= Z.to_nat n)%nat) groups.
Proof.
  intro Hn. unfold chunks, range.
  destruct (Z.eqb_spec n 0) as [E|_]; [lia|].
  destruct (Z.ltb_spec n 0) as [E|_]; [lia|].
  cbn [bind]. eexists. split; [reflexivity|].
  replace (Z.of_nat (List.length l) - 0) with (Z.of_nat (List.length l)) by lia.
  destruct (range_up_chunks l n Hn (Z.to_nat (Z.of_nat (List.length l))) 0)
    as [Hc Hf]; [lia | lia |].
  split; [exact Hc | exact Hf].
Qed.

(** With at least one header row, every fragment is the header rows
    followed by one group of body rows, the groups are consecutive, hold at
    most [max_rows] rows each and together are the body rows. *)
Lemma split_table_with_headers_headed
  (t : html_table) (max_rows : Z) (tbl : node) :
  find_table (BeautifulSoup (content t)) = Some tbl ->
  find_header_rows tbl <> [] ->
  0 < max_rows ->
  exists groups,
    split_table_with_headers t max_rows
    = Ok (map (fun chunk =>
                 fragment_of t
                   ([Open table] ++ str_rows (find_header_rows tbl)
                    ++ str_rows chunk ++ [Close table])) groups)
    /\ List.concat groups = find_non_header_rows tbl
    /\ Forall (fun g => (List.length g <= Z.to_nat max_rows)%nat) groups.
Proof.
  intros Et Hh Hn. unfold split_table_with_headers. rewrite Et.
  destruct (chunks_spec (find_non_header_rows tbl) max_rows Hn)
    as [groups [Ec [Hc Hf]]].
  rewrite Ec. cbn [bind]. exists groups.
  split; [|split; [exact Hc | exact Hf]].
  destruct (find_header_rows tbl) as [|h hs]; [congruence|].
  f_equal. apply map_ext. intro chunk. unfold fragment_of.
  f_equal. rewrite <- !app_assoc. reflexivity.
Qed.

(** C2, on the code: [table_plain] has no header row and one body row;
    with [max_rows = 5] the one fragment returned has the markup
    [</table>], which holds no row at all. *)
Theorem split_loses_rows_without_headers :
  exists tbl,
    find_table (BeautifulSoup (content table_plain)) = Some tbl
    /\ find_header_rows tbl = []
    /\ find_non_header_rows tbl = [NElem tr [NCell (td_cell "a")]]
    /\ split_table_with_headers table_plain 5
       = Ok [fragment_of table_plain [Close table]]
    /\ find_table (BeautifulSoup [Close table]) = None
    /\ soup_descendants (BeautifulSoup [Close table]) = [].
Proof.
  eexists. split; [vm_compute; reflexivity|].
  repeat split; vm_compute; reflexivity.
Qed.

(** Without header rows every fragment is [</table>], whatever the body
    rows are. *)
Lemma split_table_with_headers_headless
  (t : html_table) (max_rows : Z) (tbl : node) :
  find_table (BeautifulSoup (content t)) = Some tbl ->
  find_header_rows tbl = [] ->
  0 < max_rows ->
  exists groups,
    chunks (find_non_header_rows tbl) 0 max_rows = Ok groups
    /\ split_table_with_headers t max_rows
       = Ok (map (fun _ => fragment_of t [Close table]) groups).
Proof.
  intros Et Hh Hn. unfold split_table_with_headers. rewrite Et, Hh.
  destruct (chunks_spec (find_non_header_rows tbl) max_rows Hn)
    as [groups [Ec _]].
  rewrite Ec. cbn [bind]. exists groups. split; reflexivity.
Qed.

(** C3, on the code: a table whose markup has no row without a header cell
    yields no fragment at all. *)
Theorem split_of_header_only_table_is_empty
  (t : html_table) (max_rows : Z) (tbl : node) :
  find_table (BeautifulSoup (content t)) = Some tbl ->
  find_non_header_rows tbl = [] ->
  0 < max_rows ->
  split_table_with_headers t max_rows = Ok [].
Proof.
  intros Et Hn Hpos. unfold split_table_with_headers. rewrite Et, Hn.
  unfold chunks, range. cbn [List.length].
  destruct (Z.eqb_spec max_rows 0) as [E|_]; [lia|].
  destruct (Z.ltb_spec max_rows 0) as [E|_]; [lia|].
  reflexivity.
Qed.

Lemma split_of_header_only_table_is_empty_witness :
  find_table (BeautifulSoup (content table_header_only))
  = Some (NElem table [NData newline; NElem tr [NCell (th_cell "h")]])
  /\ find_non_header_rows
       (NElem table [NData newline; NElem tr [NCell (th_cell "h")]]) = []
  /\ 0 < 5
  /\ split_table_with_headers table_header_only 5 = Ok [].
Proof.
  split; [reflexivity|]. split; [reflexivity|]. split; [lia|].
  apply (split_of_header_only_table_is_empty table_header_only 5
           (NElem table [NData newline; NElem tr [NCell (th_cell "h")]]));
    [reflexivity | reflexivity | lia].
Defined.

(** * Further properties *)

(** ** Candidate search: errors, order, the first table *)

Lemma find_merge_table_candidates_from_raises (l : list html_table) :
  some_table_without_pages l ->
  forall k i p o,
    find_merge_table_candidates_from k i p o l = Raise ValueError.
Proof.
  induction 1 as [t rest Ht|t rest Hrest IH]; intros k i p o;
    cbn [find_merge_table_candidates_from].
  - rewrite Ht. reflexivity.
  - destruct (table_page t) as [|pg pgs]; [reflexivity|].
    cbn [Py.min Py.max bind]. rewrite IH. reflexivity.
Qed.

(** X1: [find_merge_table_candidates] returns a list when every table
    touches at least one page, and raises [ValueError] (from [min] of an
    empty page list) as soon as one table touches none; it raises nothing
    else. *)
Theorem find_merge_table_candidates_returns_or_raises
  (tables : list html_table) :
  (Forall has_pages tables ->
   exists cands, find_merge_table_candidates tables = Ok cands)
  /\ (some_table_without_pages tables ->
      find_merge_table_candidates tables = Raise ValueError)
  /\ (Forall has_pages tables \/ some_table_without_pages tables).
Proof.
  split; [|split].
  - intro H.
    destruct (find_merge_table_candidates_from_spec tables H 0 (-1) 0)
      as [cands [E _]].
    exists cands. exact E.
  - intro H. apply find_merge_table_candidates_from_raises. exact H.
  - induction tables as [|t rest IH].
    + left. constructor.
    + destruct (table_page t) as [|pg pgs] eqn:Et.
      * right. constructor. exact Et.
      * destruct IH as [IH|IH].
        -- left. constructor; [unfold has_pages; rewrite Et; discriminate|].
           exact IH.
        -- right. apply Exists_cons_tl. exact IH.
Qed.

Lemma find_merge_table_candidates_returns_or_raises_witness :
  Forall has_pages [table_A; table_B]
  /\ (exists cands, find_merge_table_candidates [table_A; table_B] = Ok cands)
  /\ some_table_without_pages [table_A; table_no_pages]
  /\ find_merge_table_candidates [table_A; table_no_pages] = Raise ValueError.
Proof.
  assert (H : Forall has_pages [table_A; table_B])
    by (repeat constructor; unfold has_pages; simpl; discriminate).
  assert (H' : some_table_without_pages [table_A; table_no_pages])
    by (apply Exists_cons_tl; constructor; reflexivity).
  split; [exact H|]. split.
  - exact (proj1 (find_merge_table_candidates_returns_or_raises _) H).
  - split; [exact H'|].
    exact (proj1 (proj2 (find_merge_table_candidates_returns_or_raises _)) H').
Defined.

Lemma find_merge_table_candidates_from_ascending (l : list html_table) :
  forall k p o cands,
    find_merge_table_candidates_from k (k - 1) p o l = Ok cands ->
    StronglySorted Z.lt (map pre_table_idx cands)
    /\ Forall (fun c => k - 1 <= pre_table_idx c) cands
    /\ (List.length cands <= List.length l)%nat.
Proof.
  induction l as [|t rest IH]; intros k p o cands H;
    cbn [find_merge_table_candidates_from] in H.
  - injection H as <-. repeat constructor.
  - destruct (Py.min (table_page t)) as [pg|e]; [|discriminate].
    destruct (Py.max (table_page t)) as [lp|e]; [|discriminate].
    cbn [bind] in H.
    destruct (find_merge_table_candidates_from (k + 1) k lp (max_offset t) rest)
      as [more|e] eqn:Em; [|discriminate].
    cbn [bind] in H. injection H as <-.
    replace k with (k + 1 - 1) in Em at 2 by lia.
    apply IH in Em. destruct Em as [Hs [Hf Hl]].
    replace (k + 1 - 1) with k in Hf by lia.
    destruct (pg =? p + 1); cbn [app map List.length].
    + split; [|split].
      * constructor; [exact Hs|].
        rewrite Forall_map. eapply Forall_impl; [|exact Hf].
        cbn. intros c Hc. lia.
      * constructor; [cbn; lia|].
        eapply Forall_impl; [|exact Hf]. cbn. intros c Hc. lia.
      * lia.
    + split; [exact Hs|]. split; [|lia].
      eapply Forall_impl; [|exact Hf]. cbn. intros c Hc. lia.
Qed.

(** X2: the candidates come out in strictly increasing order of
    [pre_table_idx], and there are at most as many as there are tables. *)
Theorem find_merge_table_candidates_ascending (tables : list html_table) :
  Forall has_pages tables ->
  exists cands,
    find_merge_table_candidates tables = Ok cands
    /\ StronglySorted Z.lt (map pre_table_idx cands)
    /\ (List.length cands <= List.length tables)%nat.
Proof.
  intro H.
  destruct (find_merge_table_candidates_from_spec tables H 0 (-1) 0)
    as [cands [E _]].
  exists cands. split; [exact E|].
  destruct (find_merge_table_candidates_from_ascending tables 0 (-1) 0 cands E)
    as [Hs [_ Hl]].
  split; assumption.
Qed.

Lemma find_merge_table_candidates_ascending_witness :
  Forall has_pages [table_A; table_B]
  /\ exists cands,
       find_merge_table_candidates [table_A; table_B] = Ok cands
       /\ StronglySorted Z.lt (map pre_table_idx cands)
       /\ (List.length cands <= List.length [table_A; table_B])%nat.
Proof.
  assert (H : Forall has_pages [table_A; table_B])
    by (repeat constructor; unfold has_pages; simpl; discriminate).
  split; [exact H|].
  exact (find_merge_table_candidates_ascending [table_A; table_B] H).
Defined.






(** ** The merge passes on a well-formed working list *)

Lemma replace_nth_length {A} (l : list A) (k : nat) (v : A) :
  List.length (replace_nth l k v) = List.length l.
Proof.
  revert k. induction l as [|x l IH]; intros [|k]; simpl; auto.
Qed.

Lemma nth_error_replace_nth {A} (l : list A) (k j : nat) (v : A) :
  nth_error (replace_nth l k v) j
  = if (j =? k)%nat && (k <? List.length l)%nat then Some v
    else nth_error l j.
Proof.
  revert k j. induction l as [|x l IH]; intros k j.
  - replace (replace_nth [] k v) with (@nil A) by (destruct k; reflexivity).
    cbn [List.length]. replace (k <? 0)%nat with false by (destruct k; reflexivity).
    rewrite andb_false_r. reflexivity.
  - destruct k as [|k], j as [|j]; cbn [replace_nth nth_error]; try reflexivity.
    rewrite IH. reflexivity.
Qed.

Lemma setitem_in_range {A} (l : list A) (i : Z) (v : A) :
  0 <= i < Z.of_nat (List.length l) ->
  setitem l i v = Ok (replace_nth l (Z.to_nat i) v).
Proof.
  intros [H0 H1]. unfold setitem. cbv zeta.
  assert (E0 : (i <? 0) = false) by lia.
  assert (E1 : (Z.of_nat (List.length l) <=? i) = false) by lia.
  rewrite E0. rewrite E0, E1. reflexivity.
Qed.

Lemma index_nth_error {A} (l : list A) (i : Z) (x : A) :
  0 <= i -> nth_error l (Z.to_nat i) = Some x -> index l i = Ok x.
Proof.
  intros H0 E.
  assert (H1 : (Z.to_nat i < List.length l)%nat)
    by (apply nth_error_Some; congruence).
  destruct (index_in_range l i) as [y [Ey Ei]]; [lia|].
  rewrite E in Ey. injection Ey as <-. exact Ei.
Qed.

Lemma slots_ready_later (ws : working_list) (lo lo' : nat) :
  (lo <= lo')%nat -> slots_ready ws lo -> slots_ready ws lo'.
Proof.
  intros Hle [H1 H2]. split; [exact H1|].
  intros j Hj. apply H2. lia.
Qed.

(** What one merging step does to the list: the later slot receives the
    merged table, the earlier slot is emptied. *)
Lemma slots_ready_after_merge (ws : working_list) (i : nat) (m : html_table) :
  (S i < List.length ws)%nat ->
  slots_ready ws i -> good_table m ->
  slots_ready (replace_nth (replace_nth ws (S i) (Some m)) i None) (S i).
Proof.
  intros Hi [H1 H2] Hm. split.
  - intros j t. rewrite !nth_error_replace_nth, !replace_nth_length.
    destruct (Nat.eqb_spec j i) as [->|Nji];
      destruct (Nat.ltb_spec i (List.length ws)) as [_|Hx]; try lia;
      cbn [andb]; [discriminate|].
    destruct (Nat.eqb_spec j (S i)) as [->|Njs];
      destruct (Nat.ltb_spec (S i) (List.length ws)) as [_|Hx]; try lia;
      cbn [andb].
    + intro E. injection E as <-. exact Hm.
    + apply H1.
  - intros j Hj. rewrite !replace_nth_length in Hj.
    rewrite !nth_error_replace_nth, !replace_nth_length.
    destruct (Nat.eqb_spec j i) as [->|Nji]; [lia|]. cbn [andb].
    destruct (Nat.eqb_spec j (S i)) as [->|Njs];
      destruct (Nat.ltb_spec (S i) (List.length ws)) as [_|Hx]; try lia;
      cbn [andb].
    + exists m. reflexivity.
    + apply H2. lia.
Qed.

Lemma sorted_pages_from_one (pa pb : list Z) :
  pa <> [] -> Forall (fun p => 1 <= p) pa -> Forall (fun p => 1 <= p) pb ->
  sorted Z.leb (pa ++ pb) <> []
  /\ Forall (fun p => 1 <= p) (sorted Z.leb (pa ++ pb)).
Proof.
  intros Hne Ha Hb. split.
  - intro E. apply sorted_nil_iff in E. apply app_eq_nil in E.
    destruct E as [E _]. contradiction.
  - apply Forall_forall. intros p Hp. apply sorted_in in Hp.
    apply in_app_or in Hp. rewrite Forall_forall in Ha, Hb.
    destruct Hp as [Hp|Hp]; auto.
Qed.

Lemma merge_tables_colum_wise_good (a b : html_table) :
  good_table a -> good_table b ->
  exists m, merge_tables_colum_wise a b = Ok m /\ good_table m.
Proof.
  intros [Ha [Han Hap]] [Hb [Hbn Hbp]].
  destruct (merge_tables_colum_wise a b) as [m|e] eqn:E.
  - exists m. split; [reflexivity|]. split.
    + exact (merge_tables_colum_wise_has_table a b m E).
    + unfold merge_tables_colum_wise in E.
      destruct (find_table (BeautifulSoup (content a))); [|discriminate].
      destruct (find_table (BeautifulSoup (content b))); [|discriminate].
      cbv zeta in E. injection E as <-. unfold pages_from_one.
      cbn [table_page]. apply sorted_pages_from_one; assumption.
  - exfalso. unfold merge_tables_colum_wise, has_table_markup in *.
    destruct (find_table (BeautifulSoup (content a))); [|congruence].
    destruct (find_table (BeautifulSoup (content b))); [|congruence].
    discriminate.
Qed.

Lemma merge_tables_row_wise_good (a b : html_table) :
  good_table a -> good_table b ->
  exists m, merge_tables_row_wise a b = Ok m /\ good_table m.
Proof.
  intros [Ha [Han Hap]] [Hb [Hbn Hbp]].
  destruct (merge_tables_row_wise a b) as [m|e] eqn:E.
  - exists m. split; [reflexivity|]. split.
    + exact (merge_tables_row_wise_has_table a b m Ha E).
    + unfold merge_tables_row_wise in E.
      destruct (find_table (BeautifulSoup (content b))); [|discriminate].
      cbv zeta in E.
      destruct (find_table (BeautifulSoup (content a))); cbn [bind] in E.
      * injection E as <-. unfold pages_from_one. cbn [table_page].
        apply sorted_pages_from_one; assumption.
      * destruct (map without_rows _); [|discriminate].
        cbn [bind] in E. injection E as <-. unfold pages_from_one.
        cbn [table_page]. apply sorted_pages_from_one; assumption.
  - exfalso. unfold merge_tables_row_wise, has_table_markup in *.
    destruct (find_table (BeautifulSoup (content b))); [|congruence].
    destruct (find_table (BeautifulSoup (content a))); [|congruence].
    discriminate.
Qed.

Lemma merge_into_later_slot (ws : working_list) (idx : Z) (m : html_table) :
  0 <= idx -> idx + 1 < Z.of_nat (List.length ws) ->
  bind (setitem ws (idx + 1) (Some m)) (fun ws' => setitem ws' idx None)
  = Ok (replace_nth (replace_nth ws (S (Z.to_nat idx)) (Some m))
          (Z.to_nat idx) None).
Proof.
  intros H0 H1.
  rewrite setitem_in_range by lia. cbn [bind].
  rewrite setitem_in_range by (rewrite replace_nth_length; lia).
  replace (Z.to_nat (idx + 1)) with (S (Z.to_nat idx)) by lia.
  reflexivity.
Qed.

Lemma slots_in_range (ws : working_list) (idx : Z) (x : option html_table) :
  0 <= idx -> nth_error ws (S (Z.to_nat idx)) = Some x ->
  idx + 1 < Z.of_nat (List.length ws).
Proof.
  intros H0 E.
  assert (S (Z.to_nat idx) < List.length ws)%nat
    by (apply nth_error_Some; congruence).
  lia.
Qed.

Lemma column_wise_step_merges_or_keeps (ps : list DocumentParagraph) :
  step_merges_or_keeps (column_wise_step ps).
Proof.
  intros ws c t1 t2 H0 E1 E2 G1 G2. unfold column_wise_step. cbv zeta.
  rewrite (index_nth_error ws _ _ H0 E1). cbn [bind].
  rewrite (index_nth_error ws (pre_table_idx c + 1) (Some t2))
    by (try lia; replace (Z.to_nat (pre_table_idx c + 1))
          with (S (Z.to_nat (pre_table_idx c))) by lia; exact E2).
  cbn [bind negb subscript].
  destruct ((header_row_count t1 =? header_row_count t2)
            && (non_header_row_count t1 =? non_header_row_count t2));
    [|left; reflexivity].
  destruct (merge_tables_colum_wise_good t1 t2 G1 G2) as [m [Em Gm]].
  right. exists m. split; [exact Gm|]. rewrite Em. cbn [bind].
  apply merge_into_later_slot; [exact H0|].
  exact (slots_in_range ws _ _ H0 E2).
Qed.

Lemma row_wise_step_merges_or_keeps (ps : list DocumentParagraph) :
  step_merges_or_keeps (row_wise_step ps).
Proof.
  intros ws c t1 t2 H0 E1 E2 G1 G2. unfold row_wise_step. cbv zeta.
  rewrite (index_nth_error ws _ _ H0 E1). cbn [bind].
  rewrite (index_nth_error ws (pre_table_idx c + 1) (Some t2))
    by (try lia; replace (Z.to_nat (pre_table_idx c + 1))
          with (S (Z.to_nat (pre_table_idx c))) by lia; exact E2).
  cbn [bind negb subscript].
  destruct ((column_count t1 =? column_count t2)
            && ((header_row_count t1 <=? 0) && (header_row_count t2 <=? 0)
                || (header_row_count t1 =? header_row_count t2)
                   && list_eqb (header_text t1) (header_text t2)));
    [|left; reflexivity].
  destruct (merge_tables_row_wise_good t1 t2 G1 G2) as [m [Em Gm]].
  right. exists m. split; [exact Gm|]. rewrite Em. cbn [bind].
  apply merge_into_later_slot; [exact H0|].
  exact (slots_in_range ws _ _ H0 E2).
Qed.

Section Pass.

Variable step : working_list -> candidate -> result working_list.
Variable pass : working_list -> list candidate -> result working_list.
Hypothesis pass_nil : forall ws, pass ws [] = Ok ws.
Hypothesis pass_cons : forall ws c cs,
  pass ws (c :: cs) = bind (step ws c) (fun ws' => pass ws' cs).
Hypothesis step_ok : step_merges_or_keeps step.

(** Candidates in increasing order, each pointing at two slots from [lo]
    on: the pass runs to its end, keeps the length of the list, and every
    table it leaves is good. *)
Lemma pass_returns (cands : list candidate) :
  forall ws lo,
    slots_ready ws lo ->
    StronglySorted Z.lt (map pre_table_idx cands) ->
    Forall (fun c => Z.of_nat lo <= pre_table_idx c
                     /\ pre_table_idx c + 1 < Z.of_nat (List.length ws))
      cands ->
    exists ws',
      pass ws cands = Ok ws'
      /\ List.length ws' = List.length ws
      /\ (forall j t, nth_error ws' j = Some (Some t) -> good_table t).
Proof.
  induction cands as [|c cs IH]; intros ws lo Hready Hsorted Hbounds.
  - exists ws. rewrite pass_nil. destruct Hready as [H1 _]. auto.
  - rewrite pass_cons.
    inversion Hbounds as [|? ? [Hlo Hhi] Hrest]; subst.
    cbn [map] in Hsorted. inversion Hsorted as [|? ? Hs Hlt]; subst.
    set (i := Z.to_nat (pre_table_idx c)).
    assert (Hready' : slots_ready ws i)
      by (apply (slots_ready_later ws lo); [unfold i; lia | exact Hready]).
    destruct Hready' as [H1 H2].
    destruct (H2 i) as [t1 E1]; [unfold i; lia|].
    destruct (H2 (S i)) as [t2 E2]; [unfold i; lia|].
    assert (Hnext : forall ws1 : working_list,
               List.length ws1 = List.length ws ->
               Forall (fun c' => Z.of_nat (S i) <= pre_table_idx c'
                                 /\ pre_table_idx c' + 1
                                    < Z.of_nat (List.length ws1)) cs).
    { intros ws1 El. rewrite Forall_forall in Hrest, Hlt |- *.
      intros c' Hc'. specialize (Hrest c' Hc').
      specialize (Hlt (pre_table_idx c') (in_map pre_table_idx cs c' Hc')).
      rewrite El. unfold i. lia. }
    destruct (step_ok ws c t1 t2) as [Ek|[m [Gm Em]]];
      try assumption; try lia;
      [exact (H1 _ _ E1) | exact (H1 _ _ E2) | |].
    + rewrite Ek. cbn [bind].
      apply (IH ws (S i)); [|exact Hs | apply Hnext; reflexivity].
      apply (slots_ready_later ws i); [lia | split; assumption].
    + rewrite Em. cbn [bind]. fold i.
      destruct (IH (replace_nth (replace_nth ws (S i) (Some m)) i None) (S i))
        as [ws' [Ep [El Hg]]].
      * apply slots_ready_after_merge;
          [unfold i; lia | split; assumption | exact Gm].
      * exact Hs.
      * apply Hnext. rewrite !replace_nth_length. reflexivity.
      * exists ws'. split; [exact Ep|]. split; [|exact Hg].
        rewrite El, !replace_nth_length. reflexivity.
Qed.

End Pass.

Lemma compact_in (ws : working_list) (t : html_table) :
  In t (compact ws) <-> In (Some t) ws.
Proof.
  unfold compact. rewrite in_flat_map. split.
  - intros [[x|] [Hx Ht]]; [|contradiction].
    destruct Ht as [->|[]]. exact Hx.
  - intro H. exists (Some t). split; [exact H | left; reflexivity].
Qed.

Lemma compact_good (ws : working_list) :
  (forall j t, nth_error ws j = Some (Some t) -> good_table t) ->
  Forall good_table (compact ws).
Proof.
  intro H. apply Forall_forall. intros t Ht. apply compact_in in Ht.
  apply In_nth_error in Ht. destruct Ht as [j Ej]. exact (H j t Ej).
Qed.

Lemma slots_ready_map_Some (tables : list html_table) :
  Forall good_table tables -> slots_ready (map Some tables) 0.
Proof.
  intro H. split.
  - intros j t E. rewrite nth_error_map in E.
    destruct (nth_error tables j) as [t'|] eqn:Et; [|discriminate].
    injection E as ->. rewrite Forall_forall in H.
    apply H. eapply nth_error_In. exact Et.
  - intros j Hj. rewrite length_map in Hj. rewrite nth_error_map.
    destruct (nth_error tables j) as [t'|] eqn:Et.
    + exists t'. reflexivity.
    + apply nth_error_None in Et. lia.
Qed.

(** The candidates of a list of good tables: increasing, and each inside
    the list together with its successor. *)
Lemma candidates_of_good_tables (tables : list html_table) :
  Forall good_table tables ->
  exists cands,
    find_merge_table_candidates tables = Ok cands
    /\ StronglySorted Z.lt (map pre_table_idx cands)
    /\ Forall (fun c => Z.of_nat 0 <= pre_table_idx c
                        /\ pre_table_idx c + 1
                           < Z.of_nat (List.length (map Some tables)))
         cands.
Proof.
  intro H.
  assert (Hp : Forall has_pages tables).
  { eapply Forall_impl; [|exact H]. intros t [_ [Ht _]]. exact Ht. }
  destruct (find_merge_table_candidates_from_spec tables Hp 0 (-1) 0)
    as [cands [E [HA [HB _]]]].
  exists cands. split; [exact E|]. split.
  - exact (proj1 (find_merge_table_candidates_from_ascending
                    tables 0 (-1) 0 cands E)).
  - apply Forall_forall. intros c Hc. specialize (HA c Hc).
    rewrite length_map.
    assert (Hne : pre_table_idx c <> -1).
    { intro Hidx. destruct (HB c Hc Hidx) as [t [rest [El [Hmin _]]]].
      subst tables. inversion H as [|? ? [_ [_ Hpages]] _]; subst.
      apply min_spec in Hmin. destruct Hmin as [Hin _].
      rewrite Forall_forall in Hpages. specialize (Hpages _ Hin). lia. }
    lia.
Qed.

(** X4: on tables whose markup holds a [<table>] and whose pages are
    numbered from 1, the column-wise pass over the candidates of that list
    runs to its end without raising, leaves the working list at its length,
    and every table that survives compaction is again such a table. *)
Theorem check_and_merge_column_wise_returns
  (ps : list DocumentParagraph) (tables : list html_table) :
  Forall good_table tables ->
  exists cands ws,
    find_merge_table_candidates tables = Ok cands
    /\ check_and_merge_column_wise ps (map Some tables) cands = Ok ws
    /\ List.length ws = List.length tables
    /\ Forall good_table (compact ws).
Proof.
  intro H.
  destruct (candidates_of_good_tables tables H) as [cands [E [Hs Hb]]].
  destruct (pass_returns (column_wise_step ps)
              (check_and_merge_column_wise ps)
              (fun ws => eq_refl) (fun ws c cs => eq_refl)
              (column_wise_step_merges_or_keeps ps)
              cands (map Some tables) 0
              (slots_ready_map_Some tables H) Hs Hb)
    as [ws [Ep [El Hg]]].
  exists cands, ws. split; [exact E|]. split; [exact Ep|].
  split; [rewrite El; apply length_map | apply compact_good; exact Hg].
Qed.

(** X5: on tables whose markup holds a [<table>] and whose pages are
    numbered from 1, the row-wise pass over the candidates of that list
    runs to its end without raising, leaves the working list at its length,
    and every table that survives compaction is again such a table. *)
Theorem check_and_merge_row_wise_returns
  (ps : list DocumentParagraph) (tables : list html_table) :
  Forall good_table tables ->
  exists cands ws,
    find_merge_table_candidates tables = Ok cands
    /\ check_and_merge_row_wise ps (map Some tables) cands = Ok ws
    /\ List.length ws = List.length tables
    /\ Forall good_table (compact ws).
Proof.
  intro H.
  destruct (candidates_of_good_tables tables H) as [cands [E [Hs Hb]]].
  destruct (pass_returns (row_wise_step ps)
              (check_and_merge_row_wise ps)
              (fun ws => eq_refl) (fun ws c cs => eq_refl)
              (row_wise_step_merges_or_keeps ps)
              cands (map Some tables) 0
              (slots_ready_map_Some tables H) Hs Hb)
    as [ws [Ep [El Hg]]].
  exists cands, ws. split; [exact E|]. split; [exact Ep|].
  split; [rewrite El; apply length_map | apply compact_good; exact Hg].
Qed.

Lemma check_and_merge_column_wise_returns_witness :
  Forall good_table [table_A; table_B]
  /\ exists cands ws,
       find_merge_table_candidates [table_A; table_B] = Ok cands
       /\ check_and_merge_column_wise [gap_paragraph]
            (map Some [table_A; table_B]) cands = Ok ws
       /\ List.length ws = List.length [table_A; table_B]
       /\ Forall good_table (compact ws).
Proof.
  assert (H : Forall good_table [table_A; table_B]).
  { repeat constructor; try (vm_compute; discriminate);
      simpl; try discriminate; lia. }
  split; [exact H|].
  exact (check_and_merge_column_wise_returns [gap_paragraph]
           [table_A; table_B] H).
Defined.

Lemma check_and_merge_row_wise_returns_witness :
  Forall good_table [table_A; table_B]
  /\ exists cands ws,
       find_merge_table_candidates [table_A; table_B] = Ok cands
       /\ check_and_merge_row_wise [gap_paragraph]
            (map Some [table_A; table_B]) cands = Ok ws
       /\ List.length ws = List.length [table_A; table_B]
       /\ Forall good_table (compact ws).
Proof.
  assert (H : Forall good_table [table_A; table_B]).
  { repeat constructor; try (vm_compute; discriminate);
      simpl; try discriminate; lia. }
  split; [exact H|].
  exact (check_and_merge_row_wise_returns [gap_paragraph]
           [table_A; table_B] H).
Defined.

(** ** The whole run *)

Lemma mapM_Forall {A B} (f : A -> result B) (P : A -> Prop) (Q : B -> Prop)
  (l : list A) :
  (forall x, P x -> exists y, f x = Ok y /\ Q y) ->
  Forall P l ->
  exists ys,
    mapM f l = Ok ys /\ Forall Q ys /\ List.length ys = List.length l.
Proof.
  intros Hf. induction 1 as [|x l Hx Hl IH]; cbn [mapM].
  - exists []. repeat split. constructor.
  - destruct (Hf x Hx) as [y [Ey Qy]]. destruct IH as [ys [Eys [Qys El]]].
    rewrite Ey. cbn [bind]. rewrite Eys. cbn [bind].
    exists (y :: ys). split; [reflexivity|]. split; [constructor; assumption|].
    cbn [List.length]. rewrite El. reflexivity.
Qed.

Lemma prepare_html_table_good (t : DocumentTable) :
  well_formed_table t ->
  exists r, prepare_html_table t = Ok r /\ good_table r.
Proof.
  intros [Hc [Hs [Hr Hp]]].
  destruct (prepare_html_table_returns t Hs Hc)
    as [mn [mx [m [st [_ [_ [_ E]]]]]]].
  eexists. split; [exact E|]. split.
  - exact (prepare_html_table_has_table t _ E).
  - unfold pages_from_one, get_table_page_numbers. cbn [table_page]. split.
    + intro En. apply map_eq_nil in En. contradiction.
    + rewrite Forall_map. exact Hp.
Qed.

Lemma split_table_with_headers_good (t : html_table) (max_rows : Z) :
  good_table t -> 0 < max_rows ->
  exists frs,
    split_table_with_headers t max_rows = Ok frs
    /\ Forall pages_from_one frs.
Proof.
  intros [Ht Hp] Hn. unfold has_table_markup in Ht.
  unfold split_table_with_headers.
  destruct (find_table (BeautifulSoup (content t))) as [tbl|]; [|congruence].
  destruct (chunks_spec (find_non_header_rows tbl) max_rows Hn)
    as [groups [Ec _]].
  rewrite Ec. cbn [bind]. eexists. split; [reflexivity|].
  apply Forall_forall. intros f Hf. apply in_map_iff in Hf.
  destruct Hf as [chunk [<- _]]. exact Hp.
Qed.

(** X6: when every raw table has at least one cell, one span of its own
    and one region, with pages numbered from 1 and plain text in every
    cell, and [table_max_rows] is positive, [identify_cross_page_tables]
    returns a list and raises nothing, whatever the paragraphs are; every
    fragment it returns carries a non-empty page list. *)
Theorem identify_cross_page_tables_returns
  (r : AnalyzeResult) (table_max_rows : Z) :
  well_formed_result r -> Forall plain_cells (tables r) ->
  0 < table_max_rows ->
  exists out,
    identify_cross_page_tables r table_max_rows = Ok out
    /\ Forall pages_from_one out.
Proof.
  intros Hr _ Hn. unfold identify_cross_page_tables, prepare_html_tables.
  destruct (mapM_Forall prepare_html_table well_formed_table good_table
              (tables r) prepare_html_table_good Hr) as [hts [E1 [G1 _]]].
  rewrite E1. cbn [bind].
  destruct (candidates_of_good_tables hts G1) as [c1 [Ec1 [Hs1 Hb1]]].
  rewrite Ec1. cbn [bind].
  destruct (pass_returns (column_wise_step (paragraphs r))
              (check_and_merge_column_wise (paragraphs r))
              (fun ws => eq_refl) (fun ws c cs => eq_refl)
              (column_wise_step_merges_or_keeps (paragraphs r))
              c1 (map Some hts) 0 (slots_ready_map_Some hts G1) Hs1 Hb1)
    as [ws1 [Ep1 [_ Hg1]]].
  rewrite Ep1. cbn [bind]. cbv zeta.
  assert (G2 := compact_good ws1 Hg1).
  destruct (candidates_of_good_tables (compact ws1) G2) as [c2 [Ec2 [Hs2 Hb2]]].
  rewrite Ec2. cbn [bind].
  destruct (pass_returns (row_wise_step (paragraphs r))
              (check_and_merge_row_wise (paragraphs r))
              (fun ws => eq_refl) (fun ws c cs => eq_refl)
              (row_wise_step_merges_or_keeps (paragraphs r))
              c2 (map Some (compact ws1)) 0
              (slots_ready_map_Some (compact ws1) G2) Hs2 Hb2)
    as [ws2 [Ep2 [_ Hg2]]].
  rewrite Ep2. cbn [bind].
  assert (G3 := compact_good ws2 Hg2).
  destruct (mapM_Forall
              (fun t => split_table_with_headers t table_max_rows)
              good_table (Forall pages_from_one) (compact ws2)
              (fun t Ht => split_table_with_headers_good t table_max_rows Ht Hn)
              G3) as [final [Ef [Gf _]]].
  rewrite Ef. cbn [bind]. eexists. split; [reflexivity|].
  apply Forall_forall. intros f Hf. apply in_concat in Hf.
  destruct Hf as [frs [Hfrs Hin]]. rewrite Forall_forall in Gf.
  specialize (Gf frs Hfrs). rewrite Forall_forall in Gf. exact (Gf f Hin).
Qed.

Lemma identify_cross_page_tables_returns_witness :
  well_formed_result result_late_header
  /\ Forall plain_cells (tables result_late_header) /\ 0 < 5
  /\ exists out,
       identify_cross_page_tables result_late_header 5 = Ok out
       /\ Forall pages_from_one out.
Proof.
  assert (H : well_formed_result result_late_header).
  { repeat constructor; simpl; try discriminate; lia. }
  assert (Hp : Forall plain_cells (tables result_late_header)).
  { constructor; [|constructor].
    constructor; [reflexivity | constructor; [reflexivity | constructor]]. }
  split; [exact H|]. split; [exact Hp|]. split; [lia|].
  apply (identify_cross_page_tables_returns result_late_header 5 H Hp). lia.
Defined.

(** X7: the paragraphs have no influence on the result of
    [identify_cross_page_tables]: two runs on the same tables return the
    same fragments, or raise the same exception, whatever the paragraphs
    are. *)
Theorem identify_cross_page_tables_ignores_paragraphs
  (ts : list DocumentTable) (ps ps' : list DocumentParagraph)
  (table_max_rows : Z) :
  identify_cross_page_tables {| tables := ts; paragraphs := ps |}
    table_max_rows
  = identify_cross_page_tables {| tables := ts; paragraphs := ps' |}
      table_max_rows.
Proof.
  unfold identify_cross_page_tables. cbn [tables paragraphs].
  destruct (prepare_html_tables ts) as [hts|e]; [|reflexivity]. cbn [bind].
  destruct (find_merge_table_candidates hts) as [c1|e]; [|reflexivity].
  cbn [bind].
  rewrite (check_and_merge_column_wise_any_paragraphs ps ps').
  destruct (check_and_merge_column_wise ps' (map Some hts) c1) as [ws1|e];
    [|reflexivity].
  cbn [bind].
  destruct (find_merge_table_candidates (compact ws1)) as [c2|e];
    [|reflexivity].
  cbn [bind].
  rewrite (check_and_merge_row_wise_any_paragraphs ps ps').
  reflexivity.
Qed.

Lemma compact_map_Some (l : list html_table) : compact (map Some l) = l.
Proof.
  unfold compact. induction l as [|t l IH]; [reflexivity|].
  cbn [map flat_map app]. rewrite IH. reflexivity.
Qed.

(** X8: when the projected tables yield no candidate, no table is merged:
    the result is the fragments of each projected table, in the order of
    the tables. *)
Theorem identify_cross_page_tables_without_candidates
  (r : AnalyzeResult) (table_max_rows : Z) (hts : list html_table) :
  prepare_html_tables (tables r) = Ok hts ->
  find_merge_table_candidates hts = Ok [] ->
  identify_cross_page_tables r table_max_rows
  = bind (mapM (fun t => split_table_with_headers t table_max_rows) hts)
      (fun final => Ok (List.concat final)).
Proof.
  intros E1 E2. unfold identify_cross_page_tables.
  rewrite E1. cbn [bind]. rewrite E2. cbn [bind check_and_merge_column_wise].
  rewrite compact_map_Some, E2. cbn [bind check_and_merge_row_wise].
  rewrite compact_map_Some. reflexivity.
Qed.

Lemma identify_cross_page_tables_without_candidates_witness :
  exists hts,
    prepare_html_tables (tables result_late_header) = Ok hts
    /\ find_merge_table_candidates hts = Ok []
    /\ identify_cross_page_tables result_late_header 5
       = bind (mapM (fun t => split_table_with_headers t 5) hts)
           (fun final => Ok (List.concat final)).
Proof.
  eexists. split; [vm_compute; reflexivity|]. split; [reflexivity|].
  apply identify_cross_page_tables_without_candidates; reflexivity.
Defined.

(** ** Chunking, further *)

Lemma range_up_count (n stop : Z) :
  0 < n ->
  forall fuel i,
    (Z.to_nat (stop - i) <= fuel)%nat ->
    Z.of_nat (List.length (range_up fuel i stop n))
    = Z.max 0 ((stop - i + n - 1) / n).
Proof.
  intros Hn fuel. induction fuel as [|fuel IH]; intros i Hfuel;
    cbn [range_up].
  - cbn [List.length].
    assert ((stop - i + n - 1) / n <= 0).
    { assert ((stop - i + n - 1) / n < 1); [|lia].
      apply Z.div_lt_upper_bound; lia. }
    lia.
  - destruct (Z.ltb_spec i stop) as [Hlt|Hge]; cbn [List.length].
    + rewrite Nat2Z.inj_succ, IH by lia.
      replace (stop - i + n - 1) with (stop - (i + n) + n - 1 + 1 * n) by lia.
      rewrite Z.div_add by lia.
      assert (0 <= (stop - (i + n) + n - 1) / n)
        by (apply Z.div_pos; lia).
      lia.
    + assert ((stop - i + n - 1) / n <= 0).
      { assert ((stop - i + n - 1) / n < 1); [|lia].
        apply Z.div_lt_upper_bound; lia. }
      lia.
Qed.

Lemma range_up_in (n stop : Z) :
  forall fuel i j, In j (range_up fuel i stop n) -> 0 < n -> i <= j < stop.
Proof.
  induction fuel as [|fuel IH]; intros i j Hj Hn; cbn [range_up] in Hj;
    [contradiction|].
  destruct (Z.ltb_spec i stop) as [Hlt|Hge]; [|contradiction].
  destruct Hj as [<-|Hj]; [lia|]. specialize (IH _ _ Hj Hn). lia.
Qed.

(** X9: for a positive [chunk_size], [chunks(list, 0, chunk_size)] cuts
    the list into consecutive groups: they put together give the list
    back, each holds between 1 and [chunk_size] elements, and there are
    [ceil(len(list) / chunk_size)] of them. *)
Theorem chunks_partition {A} (l : list A) (chunk_size : Z) :
  0 < chunk_size ->
  exists groups,
    chunks l 0 chunk_size = Ok groups
    /\ List.concat groups = l
    /\ Forall (fun g => (1 <= List.length g <= Z.to_nat chunk_size)%nat) groups
    /\ Z.of_nat (List.length groups)
       = (Z.of_nat (List.length l) + chunk_size - 1) / chunk_size.
Proof.
  intro Hn.
  destruct (chunks_spec l chunk_size Hn) as [groups [Ec [Hc Hf]]].
  exists groups. split; [exact Ec|]. split; [exact Hc|].
  unfold chunks, range in Ec.
  destruct (Z.eqb_spec chunk_size 0) as [E|_]; [lia|].
  destruct (Z.ltb_spec chunk_size 0) as [E|_]; [lia|].
  cbn [bind] in Ec. injection Ec as <-. split.
  - apply Forall_forall. intros g Hg. apply in_map_iff in Hg.
    destruct Hg as [j [<- Hj]]. apply range_up_in in Hj; [|exact Hn].
    rewrite slice_step, length_firstn, length_skipn. lia.
  - rewrite length_map, (range_up_count chunk_size _ Hn) by lia.
    assert (0 <= (Z.of_nat (List.length l) - 0 + chunk_size - 1) / chunk_size)
      by (apply Z.div_pos; lia).
    replace (Z.of_nat (List.length l) - 0) with (Z.of_nat (List.length l))
      in * by lia.
    lia.
Qed.

Lemma chunks_partition_witness :
  0 < 3
  /\ exists groups,
       chunks [1; 2; 3; 4; 5; 6; 7] 0 3 = Ok groups
       /\ List.concat groups = [1; 2; 3; 4; 5; 6; 7]
       /\ Forall (fun g => (1 <= List.length g <= Z.to_nat 3)%nat) groups
       /\ Z.of_nat (List.length groups)
          = (Z.of_nat (List.length [1; 2; 3; 4; 5; 6; 7]) + 3 - 1) / 3.
Proof.
  split; [lia|]. apply (chunks_partition [1; 2; 3; 4; 5; 6; 7] 3). lia.
Defined.

(** X10: for a positive [table_max_rows] and a table whose markup holds a
    [<table>], [split_table_with_headers] returns
    [ceil(body rows / table_max_rows)] fragments, the body rows being the
    [<tr>] without a [<th>] inside; every fragment carries the table's
    offsets, pages, counts and header text unchanged. *)
Theorem split_table_with_headers_fragments
  (t : html_table) (table_max_rows : Z) (tbl : node) :
  find_table (BeautifulSoup (content t)) = Some tbl ->
  0 < table_max_rows ->
  exists frs,
    split_table_with_headers t table_max_rows = Ok frs
    /\ Z.of_nat (List.length frs)
       = (Z.of_nat (List.length (find_non_header_rows tbl))
          + table_max_rows - 1) / table_max_rows
    /\ Forall (same_metadata t) frs.
Proof.
  intros Et Hn. unfold split_table_with_headers. rewrite Et.
  destruct (chunks_spec (find_non_header_rows tbl) table_max_rows Hn)
    as [groups [Ec _]].
  rewrite Ec. cbn [bind]. eexists. split; [reflexivity|]. split.
  - rewrite length_map. unfold chunks, range in Ec.
    destruct (Z.eqb_spec table_max_rows 0) as [E|_]; [lia|].
    destruct (Z.ltb_spec table_max_rows 0) as [E|_]; [lia|].
    cbn [bind] in Ec. injection Ec as <-.
    rewrite length_map, (range_up_count table_max_rows _ Hn) by lia.
    set (len := Z.of_nat (List.length (find_non_header_rows tbl))).
    assert (0 <= (len - 0 + table_max_rows - 1) / table_max_rows)
      by (apply Z.div_pos; lia).
    replace (len - 0) with len in * by lia. lia.
  - apply Forall_forall. intros f Hf. apply in_map_iff in Hf.
    destruct Hf as [chunk [<- _]]. unfold same_metadata. cbn. tauto.
Qed.

Lemma split_table_with_headers_fragments_witness :
  find_table (BeautifulSoup (content table_A)) = Some table_A_tree /\ 0 < 5
  /\ exists frs,
       split_table_with_headers table_A 5 = Ok frs
       /\ Z.of_nat (List.length frs)
          = (Z.of_nat (List.length (find_non_header_rows table_A_tree))
             + 5 - 1) / 5
       /\ Forall (same_metadata table_A) frs.
Proof.
  split; [reflexivity|]. split; [lia|].
  apply (split_table_with_headers_fragments table_A 5 table_A_tree);
    [reflexivity | lia].
Defined.

(** X11: with [table_max_rows = 0], [split_table_with_headers] raises
    [ValueError] (from [range] with step 0); with a negative
    [table_max_rows] it returns no fragment at all, so the table is
    dropped. *)
Theorem split_table_with_headers_bad_max_rows
  (t : html_table) (table_max_rows : Z) (tbl : node) :
  find_table (BeautifulSoup (content t)) = Some tbl ->
  (table_max_rows = 0 ->
   split_table_with_headers t table_max_rows = Raise ValueError)
  /\ (table_max_rows < 0 ->
      split_table_with_headers t table_max_rows = Ok []).
Proof.
  intro Et. unfold split_table_with_headers, chunks, range. rewrite Et.
  split.
  - intros ->. reflexivity.
  - intro Hn.
    destruct (Z.eqb_spec table_max_rows 0) as [E|_]; [lia|].
    destruct (Z.ltb_spec table_max_rows 0) as [_|E]; [|lia].
    destruct (Z.ltb_spec (Z.of_nat (List.length (find_non_header_rows tbl))) 0)
      as [E|_]; [lia|].
    reflexivity.
Qed.

Lemma split_table_with_headers_bad_max_rows_witness :
  find_table (BeautifulSoup (content table_A)) = Some table_A_tree
  /\ split_table_with_headers table_A 0 = Raise ValueError
  /\ split_table_with_headers table_A (-2) = Ok [].
Proof.
  split; [reflexivity|]. split.
  - exact (proj1 (split_table_with_headers_bad_max_rows
                    table_A 0 table_A_tree eq_refl) eq_refl).
  - apply (proj2 (split_table_with_headers_bad_max_rows
                    table_A (-2) table_A_tree eq_refl)). lia.
Defined.

(** ** Projection, further *)

Lemma prepare_html_table_unprojectable (t : DocumentTable) :
  unprojectable t -> prepare_html_table t = Raise IndexError.
Proof.
  intro H. unfold prepare_html_table.
  destruct (spans t) as [|s0 ss] eqn:Es.
  - rewrite (get_table_span_offsets_empty t Es). reflexivity.
  - destruct H as [Hc|Hs]; [|rewrite Es in Hs; discriminate Hs].
    assert (Hs : spans t <> []) by (rewrite Es; discriminate).
    destruct (get_table_span_offsets_spec t Hs) as [mn [mx [Eo _]]].
    rewrite Eo. cbn [bind]. rewrite (table_to_html_empty t Hc). reflexivity.
Qed.

Lemma prepare_html_table_projectable (t : DocumentTable) :
  projectable t -> exists r, prepare_html_table t = Ok r.
Proof.
  intros [Hc Hs].
  destruct (prepare_html_table_returns t Hs Hc)
    as [mn [mx [m [st [_ [_ [_ E]]]]]]].
  eexists. exact E.
Qed.

Lemma projectable_or_not (t : DocumentTable) :
  projectable t \/ unprojectable t.
Proof.
  unfold projectable, unprojectable.
  destruct (cells t); [right; left; reflexivity|].
  destruct (spans t); [right; right; reflexivity|].
  left. split; discriminate.
Qed.

(** X12: on tables whose cells hold plain text, [prepare_html_tables]
    projects all tables or none: when every table has a cell and a span of
    its own it returns their projections, one per table and in order; when
    some table lacks either it raises [IndexError] and returns no partial
    list. *)
Theorem prepare_html_tables_all_or_nothing (ts : list DocumentTable) :
  Forall plain_cells ts ->
  (Forall projectable ts ->
   exists hts,
     prepare_html_tables ts = Ok hts
     /\ Forall2 (fun t r => prepare_html_table t = Ok r) ts hts)
  /\ (Exists unprojectable ts ->
      prepare_html_tables ts = Raise IndexError).
Proof.
  intros _. unfold prepare_html_tables. split.
  - induction 1 as [|t ts Ht Hts IH]; cbn [mapM].
    + exists []. split; [reflexivity | constructor].
    + destruct (prepare_html_table_projectable t Ht) as [r Er].
      destruct IH as [hts [Eh Hh]]. rewrite Er. cbn [bind]. rewrite Eh.
      cbn [bind]. exists (r :: hts). split; [reflexivity|].
      constructor; assumption.
  - induction ts as [|t ts IH]; intro H; [inversion H|]. cbn [mapM].
    destruct (projectable_or_not t) as [Ht|Ht].
    + destruct (prepare_html_table_projectable t Ht) as [r Er].
      rewrite Er. cbn [bind]. rewrite IH; [reflexivity|].
      inversion H as [? ? Hbad|? ? Hbad]; subst; [|exact Hbad].
      exfalso. destruct Ht as [Hc Hs]. destruct Hbad; contradiction.
    + rewrite (prepare_html_table_unprojectable t Ht). reflexivity.
Qed.

Lemma prepare_html_tables_all_or_nothing_witness :
  Forall plain_cells [table_late_header; table_wide_cell]
  /\ Forall plain_cells [table_late_header; table_no_cells]
  /\ Forall projectable [table_late_header; table_wide_cell]
  /\ (exists hts,
        prepare_html_tables [table_late_header; table_wide_cell] = Ok hts
        /\ Forall2 (fun t r => prepare_html_table t = Ok r)
             [table_late_header; table_wide_cell] hts)
  /\ Exists unprojectable [table_late_header; table_no_cells]
  /\ prepare_html_tables [table_late_header; table_no_cells]
     = Raise IndexError.
Proof.
  assert (H : Forall projectable [table_late_header; table_wide_cell])
    by (repeat constructor; simpl; discriminate).
  assert (H' : Exists unprojectable [table_late_header; table_no_cells])
    by (apply Exists_cons_tl; constructor; left; reflexivity).
  assert (Hl : plain_cells table_late_header)
    by (constructor; [reflexivity | constructor; [reflexivity | constructor]]).
  assert (P : Forall plain_cells [table_late_header; table_wide_cell]).
  { constructor; [exact Hl|]. constructor; [|constructor].
    constructor; [reflexivity | constructor]. }
  assert (P' : Forall plain_cells [table_late_header; table_no_cells]).
  { constructor; [exact Hl|]. constructor; constructor. }
  split; [exact P|]. split; [exact P'|]. split; [exact H|]. split.
  - exact (proj1 (prepare_html_tables_all_or_nothing _ P) H).
  - split; [exact H'|].
    exact (proj2 (prepare_html_tables_all_or_nothing _ P') H').
Defined.



(** *** [sorted] rearranges and orders *)

Section SortedFacts.

Context {A : Type} (leb : A -> A -> bool) (le : A -> A -> Prop).
Hypothesis leb_le : forall x y, leb x y = true -> le x y.
Hypothesis leb_ge : forall x y, leb x y = false -> le y x.
Hypothesis le_trans : forall x y z, le x y -> le y z -> le x z.

Lemma insert_permutation (x : A) (l : list A) :
  Permutation (insert leb x l) (x :: l).
Proof.
  induction l as [|y l IH]; cbn [insert]; [reflexivity|].
  destruct (leb x y); [reflexivity|].
  rewrite IH. apply perm_swap.
Qed.

Lemma sorted_permutation (l : list A) : Permutation (sorted leb l) l.
Proof.
  induction l as [|x l IH]; cbn [sorted fold_right]; [reflexivity|].
  fold (sorted leb l). rewrite insert_permutation, IH. reflexivity.
Qed.

Lemma insert_strongly_sorted (x : A) (l : list A) :
  StronglySorted le l -> StronglySorted le (insert leb x l).
Proof.
  induction 1 as [|y l Hl IH Hy]; cbn [insert].
  - repeat constructor.
  - destruct (leb x y) eqn:E.
    + constructor; [constructor; assumption|].
      constructor; [apply leb_le; exact E|].
      eapply Forall_impl; [|exact Hy]. intros z Hz.
      eapply le_trans; [apply leb_le; exact E | exact Hz].
    + constructor; [exact IH|].
      apply Forall_forall. intros z Hz.
      apply (Permutation_in _ (insert_permutation x l)) in Hz.
      destruct Hz as [<-|Hz]; [apply leb_ge; exact E|].
      rewrite Forall_forall in Hy. exact (Hy z Hz).
Qed.

Lemma sorted_strongly_sorted (l : list A) : StronglySorted le (sorted leb l).
Proof.
  induction l as [|x l IH]; cbn [sorted fold_right]; [constructor|].
  apply insert_strongly_sorted. exact IH.
Qed.

End SortedFacts.

Lemma cell_key_leb_le (x y : DocumentTableCell) :
  cell_key_leb x y = true -> cell_key_le x y.
Proof.
  unfold cell_key_leb, cell_key_le.
  destruct (Z.ltb_spec (rowIndex x) (rowIndex y));
    destruct (Z.eqb_spec (rowIndex x) (rowIndex y));
    destruct (Z.leb_spec (columnIndex x) (columnIndex y));
    simpl; intro; try discriminate; lia.
Qed.

Lemma cell_key_leb_ge (x y : DocumentTableCell) :
  cell_key_leb x y = false -> cell_key_le y x.
Proof.
  unfold cell_key_leb, cell_key_le.
  destruct (Z.ltb_spec (rowIndex x) (rowIndex y));
    destruct (Z.eqb_spec (rowIndex x) (rowIndex y));
    destruct (Z.leb_spec (columnIndex x) (columnIndex y));
    simpl; intro; try discriminate; lia.
Qed.

Lemma cell_key_le_trans (x y z : DocumentTableCell) :
  cell_key_le x y -> cell_key_le y z -> cell_key_le x z.
Proof. unfold cell_key_le. lia. Qed.

Lemma leaves_app (a b : markup) : leaves (a ++ b) = leaves a ++ leaves b.
Proof. apply flat_map_app. Qed.

Lemma table_to_html_step_leaf (html : markup) (cur : Z) (c : DocumentTableCell) :
  exists more cur',
    table_to_html_step (html, cur) c = (html ++ more, cur')
    /\ leaves more = [render_cell c].
Proof.
  unfold table_to_html_step.
  destruct (negb (rowIndex c =? cur)); destruct (columnIndex c =? 0);
    cbn [orb]; repeat rewrite <- app_assoc; eexists; eexists;
    (split; [reflexivity|]); reflexivity.
Qed.

Lemma table_to_html_steps_leaves (l : list DocumentTableCell) :
  forall html cur, exists more,
    fst (fold_left table_to_html_step l (html, cur)) = html ++ more
    /\ leaves more = map render_cell l.
Proof.
  induction l as [|c l IH]; intros html cur; cbn [fold_left].
  - exists []. rewrite app_nil_r. split; reflexivity.
  - destruct (table_to_html_step_leaf html cur c) as [m1 [cur' [E1 L1]]].
    rewrite E1. destruct (IH (html ++ m1) cur') as [m2 [E2 L2]]. rewrite E2.
    exists (m1 ++ m2). rewrite app_assoc. split; [reflexivity|].
    rewrite leaves_app, L1, L2. reflexivity.
Qed.

(** X14: for a table with at least one cell, [table_to_html] returns
    markup that opens with [<table>] and a line break and closes with
    [</tr></table>]; between them every cell is rendered exactly once, in
    the order of the [(rowIndex, columnIndex)] keys, whatever order the
    cells were given in. *)
Theorem table_to_html_renders_cells_in_key_order (t : DocumentTable) :
  cells t <> [] ->
  exists body,
    table_to_html t
    = Ok ([Open table; Data newline] ++ body ++ [Close tr; Close table])
    /\ leaves body = map render_cell (visit_order t)
    /\ Permutation (visit_order t) (cells t)
    /\ StronglySorted cell_key_le (visit_order t).
Proof.
  intro H. unfold table_to_html. fold (visit_order t).
  assert (Hp : Permutation (visit_order t) (cells t))
    by apply sorted_permutation.
  assert (Hs : StronglySorted cell_key_le (visit_order t)).
  { apply (sorted_strongly_sorted cell_key_leb cell_key_le);
      [exact cell_key_leb_le | exact cell_key_leb_ge | exact cell_key_le_trans]. }
  destruct (visit_order t) as [|c s] eqn:Ev.
  - exfalso. apply H. apply Permutation_nil. exact Hp.
  - rewrite index_0_cons. cbn [bind].
    destruct (table_to_html_steps_leaves (c :: s)
                [Open table; Data newline] (rowIndex c)) as [body [E L]].
    destruct (fold_left _ _ _) as [html cur]. cbn [fst] in E. subst html.
    exists body. split; [rewrite <- app_assoc; reflexivity|].
    split; [exact L|]. split; assumption.
Qed.

Lemma table_to_html_renders_cells_in_key_order_witness :
  cells table_late_header <> []
  /\ exists body,
       table_to_html table_late_header
       = Ok ([Open table; Data newline] ++ body ++ [Close tr; Close table])
       /\ leaves body = map render_cell (visit_order table_late_header)
       /\ Permutation (visit_order table_late_header) (cells table_late_header)
       /\ StronglySorted cell_key_le (visit_order table_late_header).
Proof.
  assert (H : cells table_late_header <> []) by (simpl; discriminate).
  split; [exact H|].
  exact (table_to_html_renders_cells_in_key_order table_late_header H).
Defined.

(** ** Merging, further *)

Lemma sorted_pages (pa pb : list Z) :
  Permutation (sorted Z.leb (pa ++ pb)) (pa ++ pb)
  /\ StronglySorted Z.le (sorted Z.leb (pa ++ pb)).
Proof.
  split; [apply sorted_permutation|].
  apply (sorted_strongly_sorted Z.leb Z.le); intros; lia.
Qed.

(** X15: the record either merge returns spans both inputs: its interval
    runs from the smaller [min_offset] to the larger [max_offset], and its
    page list holds the pages of the first table and of the second, with
    repetitions, in ascending order. *)
Theorem merged_table_spans_both (a b : html_table) :
  has_table_markup a -> has_table_markup b ->
  (exists m, merge_tables_colum_wise a b = Ok m /\ spans_both a b m)
  /\ (exists m, merge_tables_row_wise a b = Ok m /\ spans_both a b m).
Proof.
  unfold has_table_markup, merge_tables_colum_wise, merge_tables_row_wise.
  intros Ha Hb.
  destruct (find_table (BeautifulSoup (content a))) as [ta|] eqn:Ea;
    [|congruence].
  destruct (find_table (BeautifulSoup (content b))) as [tb|] eqn:Eb;
    [|congruence].
  destruct (sorted_pages (table_page a) (table_page b)) as [Hp Hs].
  split; cbn [bind]; eexists; (split; [reflexivity|]);
    unfold spans_both; cbn [min_offset max_offset table_page];
    repeat split; try exact Hp; try exact Hs; lia.
Qed.

Lemma merged_table_spans_both_witness :
  has_table_markup table_A /\ has_table_markup table_B
  /\ (exists m, merge_tables_colum_wise table_A table_B = Ok m
                /\ spans_both table_A table_B m)
  /\ (exists m, merge_tables_row_wise table_A table_B = Ok m
                /\ spans_both table_A table_B m).
Proof.
  assert (Ha : has_table_markup table_A) by (vm_compute; discriminate).
  assert (Hb : has_table_markup table_B) by (vm_compute; discriminate).
  split; [exact Ha|]. split; [exact Hb|].
  exact (merged_table_spans_both table_A table_B Ha Hb).
Defined.

(** ** Serialising and parsing again *)

Lemma node_rect_nested (P : node -> Prop) :
  (forall s, P (NData s)) ->
  (forall c, P (NCell c)) ->
  (forall n kids, Forall P kids -> P (NElem n kids)) ->
  forall x, P x.
Proof.
  intros Hd Hc He. fix IH 1. intros [s|c|n kids].
  - apply Hd.
  - apply Hc.
  - apply He. induction kids as [|k kids IHk]; constructor.
    + apply IH.
    + exact IHk.
Qed.

Lemma ename_eqb_refl (n : ename) : ename_eqb n n = true.
Proof. destruct n; reflexivity. Qed.

Lemma feed_children (kids : list node) :
  Forall parses_back kids ->
  forall n ks st rt,
    fold_left feed (flat_map str kids) (mk_builder ((n, ks) :: st) rt)
    = mk_builder ((n, ks ++ kids) :: st) rt.
Proof.
  induction 1 as [|k kids Hk Hkids IH]; intros n ks st rt; cbn [flat_map].
  - rewrite app_nil_r. reflexivity.
  - rewrite fold_left_app, Hk. cbn [add_child]. rewrite IH, <- app_assoc.
    reflexivity.
Qed.

Lemma str_parses_back (x : node) : parses_back x.
Proof.
  induction x as [s|c|n kids Hkids] using node_rect_nested;
    intros st rt.
  - reflexivity.
  - reflexivity.
  - cbn [str fold_left feed stack root]. rewrite fold_left_app.
    rewrite (feed_children kids Hkids). cbn [fold_left feed stack root existsb fst].
    rewrite ename_eqb_refl. cbn [orb pop_to]. rewrite ename_eqb_refl.
    rewrite app_nil_r. reflexivity.
Qed.

(** The serialisation of a tag parses to that tag alone. *)
Lemma BeautifulSoup_str (x : node) : BeautifulSoup (str x) = [x].
Proof.
  unfold BeautifulSoup. rewrite str_parses_back. reflexivity.
Qed.





(** ** Merging tables laid out as grids *)

Lemma descendants_hrow (cs : list hcell) :
  descendants (hrow cs) = map NCell cs.
Proof.
  unfold hrow. cbn [descendants].
  induction cs as [|c cs IH]; simpl; [reflexivity|]. rewrite IH. reflexivity.
Qed.

Lemma descendants_grid (rows : list (list hcell)) :
  descendants (grid rows)
  = NData newline :: flat_map (fun r => hrow r :: map NCell r) rows.
Proof.
  unfold grid. cbn [descendants flat_map app]. f_equal.
  induction rows as [|r rows IH]; [reflexivity|].
  cbn [map flat_map]. rewrite descendants_hrow, IH. reflexivity.
Qed.

Lemma filter_cells_none (p : node -> bool) (cs : list hcell) :
  (forall c, p (NCell c) = false) -> filter p (map NCell cs) = [].
Proof.
  intro H. induction cs as [|c cs IH]; simpl; [reflexivity|].
  rewrite H. exact IH.
Qed.

Lemma find_all_tr_grid (rows : list (list hcell)) :
  find_all_tr (grid rows) = map hrow rows.
Proof.
  unfold find_all_tr. rewrite descendants_grid. cbn [filter is_elem].
  induction rows as [|r rows IH]; [reflexivity|].
  cbn [flat_map app filter map]. rewrite filter_app, IH.
  rewrite filter_cells_none by reflexivity. reflexivity.
Qed.

Lemma has_th_hrow (cs : list hcell) : has_th (hrow cs) = header_row cs.
Proof.
  unfold has_th, header_row. rewrite descendants_hrow.
  induction cs as [|c cs IH]; simpl; [reflexivity|]. rewrite IH.
  reflexivity.
Qed.

Lemma find_header_rows_of_grid (rows : list (list hcell)) :
  find_header_rows (grid rows) = map hrow (filter header_row rows).
Proof.
  unfold find_header_rows. rewrite descendants_grid.
  cbn [filter is_elem andb].
  induction rows as [|r rows IH]; [reflexivity|].
  cbn [flat_map app filter]. rewrite filter_app, IH.
  rewrite filter_cells_none by reflexivity.
  rewrite has_th_hrow. cbn [is_elem hrow ename_eqb andb].
  destruct (header_row r); reflexivity.
Qed.

Lemma without_rows_hrow (cs : list hcell) : without_rows (hrow cs) = hrow cs.
Proof.
  unfold hrow. cbn [without_rows]. f_equal.
  induction cs as [|c cs IH]; simpl; [reflexivity|]. rewrite IH. reflexivity.
Qed.

Lemma map_without_rows_hrow (rows : list (list hcell)) :
  map without_rows (map hrow rows) = map hrow rows.
Proof.
  induction rows as [|r rows IH]; [reflexivity|].
  cbn [map]. rewrite without_rows_hrow, IH. reflexivity.
Qed.

(** X17: the row-wise merge of two tables laid out as grids returns a
    table laid out as a grid: the rows of the first, followed by the rows
    of the second from which as many leading rows are dropped as the
    second has rows with a header cell. *)
Theorem merge_tables_row_wise_grid
  (a b : html_table) (ra rb : list (list hcell)) :
  is_grid a ra -> is_grid b rb ->
  exists m,
    merge_tables_row_wise a b = Ok m
    /\ is_grid m (ra ++ skipn (List.length (filter header_row rb)) rb).
Proof.
  unfold is_grid. intros Ea Eb. unfold merge_tables_row_wise.
  rewrite Ea, Eb.
  change (find_table [grid rb]) with (Some (grid rb)).
  change (find_table [grid ra]) with (Some (grid ra)).
  cbv zeta. cbn [bind]. eexists. split; [reflexivity|]. cbn [content].
  rewrite BeautifulSoup_str.
  rewrite find_header_rows_of_grid, find_all_tr_grid, length_map.
  rewrite skipn_map, map_without_rows_hrow.
  unfold grid. cbn [append_children]. rewrite map_app. reflexivity.
Qed.

Lemma merge_tables_row_wise_grid_witness :
  is_grid table_A [[th_cell "h"]; [td_cell "a"]]
  /\ is_grid table_B [[th_cell "h"]; [td_cell "b"]]
  /\ exists m,
       merge_tables_row_wise table_A table_B = Ok m
       /\ is_grid m
            ([[th_cell "h"]; [td_cell "a"]]
             ++ skipn (List.length
                         (filter header_row [[th_cell "h"]; [td_cell "b"]]))
                  [[th_cell "h"]; [td_cell "b"]]).
Proof.
  split; [reflexivity|]. split; [reflexivity|].
  exact (merge_tables_row_wise_grid table_A table_B
           [[th_cell "h"]; [td_cell "a"]] [[th_cell "h"]; [td_cell "b"]]
           eq_refl eq_refl).
Defined.

Lemma append_columns_go (kids : list node) :
  forall cols,
    (fix go (l : list node) (cols : list (list node)) {struct l}
       : list node * list (list node) :=
       match l with
       | [] => ([], cols)
       | y :: l' =>
           let '(y', cols1) := append_columns y cols in
           let '(l'', cols2) := go l' cols1 in
           (y' :: l'', cols2)
       end) kids cols
    = append_columns_list kids cols.
Proof.
  induction kids as [|k kids IH]; intro cols; [reflexivity|].
  cbn [append_columns_list]. destruct (append_columns k cols) as [k' cols1].
  rewrite IH. reflexivity.
Qed.

Lemma append_columns_elem (n : ename) (kids : list node)
  (cols : list (list node)) :
  append_columns (NElem n kids) cols
  = let '(mine, cols0) :=
      match n, cols with
      | tr, c :: cols' => (c, cols')
      | _, _ => ([], cols)
      end in
    let '(kids', cols') := append_columns_list kids cols0 in
    (NElem n (kids' ++ mine), cols').
Proof.
  cbn [append_columns].
  destruct (match n, cols with
            | tr, c :: cols' => (c, cols')
            | _, _ => ([], cols)
            end) as [mine cols0].
  rewrite append_columns_go. reflexivity.
Qed.

Lemma append_columns_list_cells (cs : list hcell) (cols : list (list node)) :
  append_columns_list (map NCell cs) cols = (map NCell cs, cols).
Proof.
  induction cs as [|c cs IH]; [reflexivity|].
  cbn [map append_columns_list append_columns]. rewrite IH. reflexivity.
Qed.

Lemma append_columns_hrow_none (r : list hcell) :
  append_columns (hrow r) [] = (hrow r, []).
Proof.
  unfold hrow. rewrite append_columns_elem, append_columns_list_cells.
  rewrite app_nil_r. reflexivity.
Qed.

Lemma append_columns_hrow_some (r s : list hcell) (cols : list (list node)) :
  append_columns (hrow r) (map NCell s :: cols) = (hrow (r ++ s), cols).
Proof.
  unfold hrow. rewrite append_columns_elem, append_columns_list_cells.
  rewrite map_app. reflexivity.
Qed.

Lemma append_columns_list_rows_none (ra : list (list hcell)) :
  append_columns_list (map hrow ra) [] = (map hrow ra, []).
Proof.
  induction ra as [|r ra IH]; [reflexivity|].
  cbn [map append_columns_list]. rewrite append_columns_hrow_none, IH.
  reflexivity.
Qed.

Lemma append_columns_list_rows (ra : list (list hcell)) :
  forall rb,
    fst (append_columns_list (map hrow ra)
           (firstn (List.length ra) (map (map NCell) rb)))
    = map hrow (zip_rows ra rb).
Proof.
  induction ra as [|r ra IH]; intro rb; [reflexivity|].
  destruct rb as [|s rb]; cbn [List.length firstn map append_columns_list zip_rows].
  - rewrite append_columns_hrow_none, append_columns_list_rows_none.
    reflexivity.
  - rewrite append_columns_hrow_some.
    specialize (IH rb).
    destruct (append_columns_list (map hrow ra)
                (firstn (List.length ra) (map (map NCell) rb)))
      as [rows' cols'].
    cbn [fst] in IH |- *. rewrite IH. reflexivity.
Qed.

Lemma find_all_cells_hrow (r : list hcell) :
  find_all_cells (hrow r) = map NCell r.
Proof.
  unfold find_all_cells. rewrite descendants_hrow.
  induction r as [|c r IH]; simpl; [reflexivity|]. rewrite IH. reflexivity.
Qed.

Lemma columns_by_row_cells (r : list hcell) :
  flat_map (columns_by_row true) (map NCell r) = [].
Proof. induction r as [|c r IH]; simpl; [reflexivity | exact IH]. Qed.

Lemma columns_by_row_grid (rows : list (list hcell)) :
  columns_by_row false (grid rows) = map (map NCell) rows.
Proof.
  unfold grid. cbn [columns_by_row app flat_map].
  induction rows as [|r rows IH]; [reflexivity|].
  cbn [map flat_map]. rewrite IH.
  change (columns_by_row false (hrow r))
    with ([find_all_cells (hrow r)]
          ++ flat_map (columns_by_row true) (map NCell r)).
  rewrite find_all_cells_hrow, columns_by_row_cells. reflexivity.
Qed.

(** X18: the column-wise merge of two tables laid out as grids returns a
    table laid out as a grid: row [i] of the first followed by the cells
    of row [i] of the second; rows of the first beyond the second stay as
    they are, rows of the second beyond the first are dropped. *)
Theorem merge_tables_colum_wise_grid
  (a b : html_table) (ra rb : list (list hcell)) :
  is_grid a ra -> is_grid b rb ->
  exists m,
    merge_tables_colum_wise a b = Ok m /\ is_grid m (zip_rows ra rb).
Proof.
  unfold is_grid. intros Ea Eb. unfold merge_tables_colum_wise.
  rewrite Ea, Eb.
  change (find_table [grid rb]) with (Some (grid rb)).
  change (find_table [grid ra]) with (Some (grid ra)).
  cbv zeta. eexists. split; [reflexivity|]. cbn [content].
  rewrite BeautifulSoup_str. f_equal.
  rewrite find_all_tr_grid, length_map, columns_by_row_grid.
  unfold grid at 1. rewrite append_columns_elem.
  cbn [append_columns_list append_columns].
  assert (H := append_columns_list_rows ra rb).
  destruct (append_columns_list (map hrow ra)
              (firstn (List.length ra) (map (map NCell) rb)))
    as [rows' cols'].
  cbn [fst] in H |- *. rewrite H, app_nil_r. reflexivity.
Qed.

Lemma merge_tables_colum_wise_grid_witness :
  is_grid table_A [[th_cell "h"]; [td_cell "a"]]
  /\ is_grid table_B [[th_cell "h"]; [td_cell "b"]]
  /\ exists m,
       merge_tables_colum_wise table_A table_B = Ok m
       /\ is_grid m
            (zip_rows [[th_cell "h"]; [td_cell "a"]]
               [[th_cell "h"]; [td_cell "b"]]).
Proof.
  split; [reflexivity|]. split; [reflexivity|].
  exact (merge_tables_colum_wise_grid table_A table_B
           [[th_cell "h"]; [td_cell "a"]] [[th_cell "h"]; [td_cell "b"]]
           eq_refl eq_refl).
Defined.

(** ** Gap inspection, further *)

(** X19: page furniture never disqualifies: when every paragraph carries
    the role pageHeader, pageFooter or pageNumber,
    [check_paragraph_presence] answers [False] for every gap. *)
Theorem check_paragraph_presence_furniture_only
  (ps : list DocumentParagraph) (start_ stop : Z) :
  Forall (fun p => role_is_furniture (role p)) ps ->
  check_paragraph_presence ps start_ stop = false.
Proof.
  intro H. unfold check_paragraph_presence.
  induction H as [|p ps Hp Hps IH]; [reflexivity|].
  cbn [existsb]. rewrite IH, orb_false_r.
  assert (E : counts_as_content (role p) = false).
  { destruct (counts_as_content (role p)) eqn:E; [|reflexivity].
    apply counts_as_content_spec in E. destruct E as [[E|E]|E].
    - destruct Hp as [name [Hr _]]. congruence.
    - destruct Hp as [name [Hr _]]. congruence.
    - contradiction. }
  induction (par_spans p) as [|s ss IHs]; [reflexivity|].
  cbn [existsb]. rewrite IHs, E, andb_false_r. reflexivity.
Qed.

Lemma check_paragraph_presence_furniture_only_witness :
  Forall (fun p => role_is_furniture (role p))
    [ {| par_spans := [mk_span 410 5]; role := Role "pageFooter" |};
      {| par_spans := [mk_span 415 2]; role := Role "pageNumber" |} ]
  /\ check_paragraph_presence
       [ {| par_spans := [mk_span 410 5]; role := Role "pageFooter" |};
         {| par_spans := [mk_span 415 2]; role := Role "pageNumber" |} ]
       400 420 = false.
Proof.
  assert (H : Forall (fun p => role_is_furniture (role p))
                [ {| par_spans := [mk_span 410 5]; role := Role "pageFooter" |};
                  {| par_spans := [mk_span 415 2]; role := Role "pageNumber" |} ]).
  { repeat constructor; eexists; (split; [reflexivity|]); tauto. }
  split; [exact H|].
  exact (check_paragraph_presence_furniture_only _ 400 420 H).
Defined.

(** X20: only the start of a span counts and the bounds are exclusive: a
    gap that holds no offset strictly inside it ([end <= start + 1])
    never has disqualifying content, whatever the paragraphs are. *)
Theorem check_paragraph_presence_empty_gap
  (ps : list DocumentParagraph) (start_ stop : Z) :
  stop <= start_ + 1 ->
  check_paragraph_presence ps start_ stop = false.
Proof.
  intro H. unfold check_paragraph_presence.
  induction ps as [|p ps IH]; [reflexivity|].
  cbn [existsb]. rewrite IH, orb_false_r.
  induction (par_spans p) as [|s ss IHs]; [reflexivity|].
  cbn [existsb]. rewrite IHs, orb_false_r.
  destruct (Z.ltb_spec start_ (offset s)); [|reflexivity].
  destruct (Z.ltb_spec (offset s) stop); [lia | reflexivity].
Qed.

Lemma check_paragraph_presence_empty_gap_witness :
  400 <= 399 + 1
  /\ check_paragraph_presence [gap_paragraph] 399 400 = false.
Proof.
  split; [lia|].
  apply (check_paragraph_presence_empty_gap [gap_paragraph] 399 400). lia.
Defined.

(** ** Three fragments in one pass *)

Lemma row_wise_compatible_test (t1 t2 : html_table) :
  row_wise_compatible t1 t2 ->
  (column_count t1 =? column_count t2)
  && ((header_row_count t1 <=? 0) && (header_row_count t2 <=? 0)
      || (header_row_count t1 =? header_row_count t2)
         && list_eqb (header_text t1) (header_text t2)) = true.
Proof.
  intros [Hc H]. apply andb_true_iff. split; [lia|].
  apply orb_true_iff. destruct H as [[H1 H2]|[H1 H2]].
  - left. apply andb_true_iff. split; lia.
  - right. apply andb_true_iff. split; [lia|].
    unfold list_eqb. destruct (list_eq_dec string_dec _ _); congruence.
Qed.

Lemma column_wise_compatible_test (t1 t2 : html_table) :
  column_wise_compatible t1 t2 ->
  (header_row_count t1 =? header_row_count t2)
  && (non_header_row_count t1 =? non_header_row_count t2) = true.
Proof. intros [H1 H2]. apply andb_true_iff. split; lia. Qed.

(** X21: three tables that pass the row-wise test pairwise, with the
    candidates of the pairs (0, 1) and (1, 2), end up as one table within
    a single pass: the second candidate meets the table merged by the
    first in slot 1 and merges it into slot 2. *)
Theorem check_and_merge_row_wise_chains
  (ps : list DocumentParagraph) (a b c : html_table) (s0 e0 s1 e1 : Z) :
  has_table_markup a -> has_table_markup b -> has_table_markup c ->
  row_wise_compatible a b -> row_wise_compatible a c ->
  exists ab abc,
    merge_tables_row_wise a b = Ok ab
    /\ merge_tables_row_wise ab c = Ok abc
    /\ check_and_merge_row_wise ps [Some a; Some b; Some c]
         [ {| pre_table_idx := 0; start := s0; end_ := e0 |};
           {| pre_table_idx := 1; start := s1; end_ := e1 |} ]
       = Ok [None; None; Some abc].
Proof.
  intros Ha Hb Hc Hab Hac.
  destruct (merge_tables_row_wise a b) as [ab|e] eqn:Eab.
  2:{ exfalso. unfold merge_tables_row_wise, has_table_markup in *.
      destruct (find_table (BeautifulSoup (content b))); [|congruence].
      destruct (find_table (BeautifulSoup (content a))); [|congruence].
      discriminate. }
  assert (Hm : has_table_markup ab)
    by exact (merge_tables_row_wise_has_table a b ab Ha Eab).
  assert (Hfields : column_count ab = column_count a
                    /\ header_row_count ab = header_row_count a
                    /\ header_text ab = header_text a).
  { unfold merge_tables_row_wise in Eab.
    destruct (find_table (BeautifulSoup (content b))); [|discriminate].
    cbv zeta in Eab.
    destruct (match find_table (BeautifulSoup (content a)) with
              | Some table1 => _
              | None => _
              end) as [mc|e]; [|discriminate].
    cbn [bind] in Eab. injection Eab as <-. cbn. auto. }
  assert (Habc : row_wise_compatible ab c).
  { destruct Hfields as [F1 [F2 F3]]. unfold row_wise_compatible.
    rewrite F1, F2, F3. exact Hac. }
  destruct (merge_tables_row_wise ab c) as [abc|e] eqn:Eabc.
  2:{ exfalso. unfold merge_tables_row_wise, has_table_markup in *.
      destruct (find_table (BeautifulSoup (content c))); [|congruence].
      destruct (find_table (BeautifulSoup (content ab))); [|congruence].
      discriminate. }
  exists ab, abc. split; [reflexivity|]. split; [exact Eabc|].
  cbn [check_and_merge_row_wise]. unfold row_wise_step at 1.
  cbv zeta. cbn [pre_table_idx].
  change (index [Some a; Some b; Some c] 0) with (Ok (Some a)).
  change (index [Some a; Some b; Some c] (0 + 1)) with (Ok (Some b)).
  cbn [bind negb subscript]. rewrite (row_wise_compatible_test a b Hab).
  rewrite Eab. cbn [bind].
  change (setitem [Some a; Some b; Some c] (0 + 1) (Some ab))
    with (Ok [Some a; Some ab; Some c]).
  cbn [bind].
  change (setitem [Some a; Some ab; Some c] 0 None)
    with (Ok [None; Some ab; Some c]).
  cbn [bind]. unfold row_wise_step. cbv zeta. cbn [pre_table_idx].
  change (index [None; Some ab; Some c] 1) with (Ok (Some ab)).
  change (index [None; Some ab; Some c] (1 + 1)) with (Ok (Some c)).
  cbn [bind negb subscript]. rewrite (row_wise_compatible_test ab c Habc).
  rewrite Eabc. cbn [bind]. reflexivity.
Qed.

Lemma check_and_merge_row_wise_chains_witness :
  has_table_markup table_A /\ has_table_markup table_B
  /\ has_table_markup table_C
  /\ row_wise_compatible table_A table_B
  /\ row_wise_compatible table_A table_C
  /\ exists ab abc,
       merge_tables_row_wise table_A table_B = Ok ab
       /\ merge_tables_row_wise ab table_C = Ok abc
       /\ check_and_merge_row_wise [] [Some table_A; Some table_B; Some table_C]
            [ {| pre_table_idx := 0; start := 400; end_ := 420 |};
              {| pre_table_idx := 1; start := 700; end_ := 720 |} ]
          = Ok [None; None; Some abc].
Proof.
  assert (Ha : has_table_markup table_A) by (vm_compute; discriminate).
  assert (Hb : has_table_markup table_B) by (vm_compute; discriminate).
  assert (Hc : has_table_markup table_C) by (vm_compute; discriminate).
  assert (Hab : row_wise_compatible table_A table_B)
    by (split; [reflexivity | right; split; reflexivity]).
  assert (Hac : row_wise_compatible table_A table_C)
    by (split; [reflexivity | right; split; reflexivity]).
  split; [exact Ha|]. split; [exact Hb|]. split; [exact Hc|].
  split; [exact Hab|]. split; [exact Hac|].
  exact (check_and_merge_row_wise_chains [] table_A table_B table_C
           400 420 700 720 Ha Hb Hc Hab Hac).
Defined.

(** ** The projection of a grid *)

Lemma Sorted_snoc (l : list Z) (a b : Z) :
  Sorted Z.lt (l ++ [a]) -> a < b -> Sorted Z.lt ((l ++ [a]) ++ [b]).
Proof.
  induction l as [|x l IH]; intros Hs Hlt.
  - repeat constructor. exact Hlt.
  - cbn [app] in Hs |- *. inversion Hs as [|? ? Hs' Hd]; subst.
    constructor; [apply IH; assumption|].
    destruct l as [|y l]; cbn [app] in Hd |- *;
      inversion Hd; subst; constructor; assumption.
Qed.

Lemma group_rows_shape (l : list DocumentTableCell) :
  forall done current cur idxs,
    Forall2 row_of_index done idxs ->
    row_of_index current cur ->
    Sorted Z.lt (idxs ++ [cur]) ->
    rows_ascend l ->
    (forall x, In x l -> cur <= rowIndex x) ->
    exists idxs',
      Forall2 row_of_index
        (fst (group_rows done current cur l)
         ++ [snd (group_rows done current cur l)]) idxs'
      /\ Sorted Z.lt idxs'
      /\ List.concat (fst (group_rows done current cur l)
                      ++ [snd (group_rows done current cur l)])
         = List.concat done ++ current ++ l.
Proof.
  induction l as [|c l IH]; intros done current cur idxs Hd Hc Hs Hasc Hge.
  - cbn [group_rows fst snd]. exists (idxs ++ [cur]).
    split; [apply Forall2_app; [exact Hd | constructor; [exact Hc | constructor]]|].
    split; [exact Hs|].
    rewrite concat_app. cbn [List.concat]. rewrite !app_nil_r. reflexivity.
  - cbn [group_rows]. destruct Hasc as [Hcl Hasc].
    destruct (Z.eqb_spec (rowIndex c) cur) as [E|N].
    + destruct (IH done (current ++ [c]) cur idxs) as [idxs' [H1 [H2 H3]]];
        try assumption.
      * destruct Hc as [Hne Hu]. split.
        -- intro En. apply app_eq_nil in En. destruct En as [_ En].
           discriminate En.
        -- apply Forall_app. split; [exact Hu|]. constructor; [exact E | constructor].
      * intros x Hx. apply Hge. right. exact Hx.
      * exists idxs'. split; [exact H1|]. split; [exact H2|].
        rewrite H3, <- app_assoc. reflexivity.
    + assert (Hlt : cur < rowIndex c).
      { specialize (Hge c (or_introl eq_refl)). lia. }
      destruct (IH (done ++ [current]) [c] (rowIndex c) (idxs ++ [cur]))
        as [idxs' [H1 [H2 H3]]].
      * apply Forall2_app; [exact Hd | constructor; [exact Hc | constructor]].
      * split; [discriminate|]. constructor; [reflexivity | constructor].
      * apply Sorted_snoc; assumption.
      * exact Hasc.
      * exact Hcl.
      * exists idxs'. split; [exact H1|]. split; [exact H2|].
        rewrite H3, concat_app. cbn [List.concat]. rewrite app_nil_r.
        rewrite <- !app_assoc. reflexivity.
Qed.

Lemma map_row_node (rows : list (list DocumentTableCell)) :
  map row_node rows = map hrow (map (map render_cell) rows).
Proof.
  rewrite map_map. apply map_ext. intro r.
  unfold row_node, row_kids, hrow. rewrite map_map. reflexivity.
Qed.

(** X22: for a raw table with a span of its own whose grid gives one
    [<tr>] per row and whose cells hold plain text, the projected markup
    parses to one [<table>] that
    holds, after the line break, one [<tr>] per row index: the rows come in
    strictly increasing order of row index, each holds the rendered cells
    of its row index, and the rows put together are the cells in
    [(rowIndex, columnIndex)] order. *)
Theorem projection_of_grid (t : DocumentTable) :
  spans t <> [] ->
  one_tr_per_row (visit_order t) = true ->
  plain_cells t ->
  exists r rows idxs,
    prepare_html_table t = Ok r
    /\ is_grid r (map (map render_cell) rows)
    /\ List.concat rows = visit_order t
    /\ Forall2 row_of_index rows idxs
    /\ Sorted Z.lt idxs.
Proof.
  intros Hs Hw _.
  destruct (visit_order t) as [|c0 rest] eqn:Ev; [discriminate|].
  destruct (table_to_html_grid t c0 rest Ev Hw) as [m [Em Eb]].
  destruct (get_table_span_offsets_spec t Hs) as [mn [mx [Eo _]]].
  assert (Hasc := sorted_rows_ascend (cells t)).
  fold (visit_order t) in Hasc. rewrite Ev in Hasc.
  destruct Hasc as [Hc Hasc].
  destruct (group_rows_shape rest [] [c0] (rowIndex c0) [])
    as [idxs [H1 [H2 H3]]]; try assumption.
  - constructor.
  - split; [discriminate|]. constructor; [reflexivity | constructor].
  - repeat constructor.
  - unfold prepare_html_table. rewrite Eo. cbn [bind]. rewrite Em.
    cbn [bind]. rewrite Eb.
    change (find_table [NElem table ?k]) with (Some (NElem table k)).
    eexists. exists (fst (group_rows [] [c0] (rowIndex c0) rest)
                     ++ [snd (group_rows [] [c0] (rowIndex c0) rest)]), idxs.
    split; [reflexivity|]. split.
    + unfold is_grid. cbn [content]. rewrite Eb, map_row_node. reflexivity.
    + split; [exact H3|]. split; assumption.
Qed.

Lemma projection_of_grid_witness :
  spans table_late_header <> []
  /\ one_tr_per_row (visit_order table_late_header) = true
  /\ plain_cells table_late_header
  /\ exists r rows idxs,
       prepare_html_table table_late_header = Ok r
       /\ is_grid r (map (map render_cell) rows)
       /\ List.concat rows = visit_order table_late_header
       /\ Forall2 row_of_index rows idxs
       /\ Sorted Z.lt idxs.
Proof.
  assert (Hs : spans table_late_header <> []) by (simpl; discriminate).
  assert (Hp : plain_cells table_late_header)
    by (constructor; [reflexivity | constructor; [reflexivity | constructor]]).
  split; [exact Hs|]. split; [reflexivity|]. split; [exact Hp|].
  exact (projection_of_grid table_late_header Hs eq_refl Hp).
Defined.

(** ** Document order is kept by the builder *)

Lemma cells_in_app (a b : list node) :
  cells_in (a ++ b) = cells_in a ++ cells_in b.
Proof.
  unfold cells_in, soup_descendants. rewrite !flat_map_app. reflexivity.
Qed.

Lemma cells_in_elem (n : ename) (ks : list node) :
  cells_in [NElem n ks] = cells_in ks.
Proof.
  unfold cells_in, soup_descendants. cbn [flat_map descendants app].
  rewrite app_nil_r. reflexivity.
Qed.

Lemma seen_add_child (x : node) (st : list frame) (rt : list node) :
  seen (add_child x st rt) = seen (mk_builder st rt) ++ cells_in [x].
Proof.
  unfold seen. destruct st as [|[n ks] rest]; cbn [add_child stack root rev].
  - cbn [flat_map]. rewrite !app_nil_r. apply cells_in_app.
  - rewrite !flat_map_app. cbn [flat_map snd]. rewrite !app_nil_r.
    rewrite cells_in_app, <- !app_assoc. reflexivity.
Qed.

Lemma seen_pop_to (n : ename) (st : list frame) :
  forall pending rt,
    seen (pop_to n pending st rt)
    = seen (mk_builder st rt) ++ cells_in pending.
Proof.
  induction st as [|[m ks] rest IH]; intros pending rt; cbn [pop_to].
  - unfold seen. cbn [stack root rev flat_map]. rewrite !app_nil_r.
    apply cells_in_app.
  - assert (E : seen (mk_builder rest rt)
                ++ cells_in [NElem m (ks ++ pending)]
                = seen (mk_builder ((m, ks) :: rest) rt) ++ cells_in pending).
    { unfold seen. cbn [stack root rev]. rewrite flat_map_app.
      cbn [flat_map snd]. rewrite app_nil_r, cells_in_elem, cells_in_app.
      rewrite <- !app_assoc. reflexivity. }
    destruct (ename_eqb m n).
    + rewrite seen_add_child. exact E.
    + rewrite IH. exact E.
Qed.

Lemma cells_in_pop_all (st : list frame) :
  forall pending rt,
    cells_in (pop_all pending st rt)
    = seen (mk_builder st rt) ++ cells_in pending.
Proof.
  induction st as [|[m ks] rest IH]; intros pending rt; cbn [pop_all].
  - unfold seen. cbn [stack root rev flat_map]. rewrite !app_nil_r.
    apply cells_in_app.
  - rewrite IH. unfold seen. cbn [stack root rev]. rewrite flat_map_app.
    cbn [flat_map snd]. rewrite app_nil_r, cells_in_elem, cells_in_app.
    rewrite <- !app_assoc. reflexivity.
Qed.

Lemma seen_feed (b : builder) (t : token) :
  seen (feed b t) = seen b ++ leaves [t].
Proof.
  destruct b as [st rt]. destruct t as [n|n|c|s]; unfold feed;
    cbn [stack root].
  - unfold seen. cbn [stack root rev]. rewrite flat_map_app.
    cbn [flat_map snd leaves]. unfold cells_in at 3. cbn.
    rewrite !app_nil_r. reflexivity.
  - destruct (existsb _ _).
    + rewrite seen_pop_to. reflexivity.
    + cbn [leaves flat_map]. rewrite app_nil_r. reflexivity.
  - rewrite seen_add_child. reflexivity.
  - rewrite seen_add_child. reflexivity.
Qed.

Lemma seen_fold_feed (m : markup) :
  forall b, seen (fold_left feed m b) = seen b ++ leaves m.
Proof.
  induction m as [|t m IH]; intro b; cbn [fold_left].
  - cbn [leaves flat_map]. rewrite app_nil_r. reflexivity.
  - rewrite IH, seen_feed, <- app_assoc.
    change (t :: m) with ([t] ++ m). rewrite leaves_app. reflexivity.
Qed.

(** The cells of the parsed document are the cells of the markup, in the
    same order, however the tags nest. *)
Lemma cells_in_BeautifulSoup (m : markup) :
  cells_in (BeautifulSoup m) = leaves m.
Proof.
  unfold BeautifulSoup.
  assert (H := seen_fold_feed m (mk_builder [] [])).
  destruct (fold_left feed m (mk_builder [] [])) as [st rt].
  cbn [stack root]. rewrite cells_in_pop_all, H. cbn.
  rewrite app_nil_r. reflexivity.
Qed.

Lemma th_texts_cells_in (soup : list node) :
  th_texts soup = map c_text (filter is_th_cell (cells_in soup)).
Proof.
  unfold th_texts, cells_in.
  induction (soup_descendants soup) as [|x l IH]; [reflexivity|].
  cbn [flat_map]. rewrite filter_app, map_app, IH. f_equal.
  destruct x as [s|c|n ks]; try reflexivity.
  unfold is_th_cell. cbn. destruct (c_tag c); reflexivity.
Qed.

(** ** The header text of a projected table *)

Lemma string_compare_not_gt_trans (s1 : string) :
  forall s2 s3,
    String.compare s1 s2 <> Gt -> String.compare s2 s3 <> Gt ->
    String.compare s1 s3 <> Gt.
Proof.
  induction s1 as [|c1 s1 IH]; intros [|c2 s2] [|c3 s3] H12 H23;
    cbn [String.compare] in *; try discriminate; try congruence.
  unfold Ascii.compare in *.
  destruct (N.compare_spec (N_of_ascii c1) (N_of_ascii c2)) as [E12|L12|G12];
    destruct (N.compare_spec (N_of_ascii c2) (N_of_ascii c3)) as [E23|L23|G23];
    destruct (N.compare_spec (N_of_ascii c1) (N_of_ascii c3)) as [E13|L13|G13];
    try congruence; try lia; try discriminate.
  apply (IH s2 s3); assumption.
Qed.

Lemma string_le_trans (x y z : string) :
  string_le x y -> string_le y z -> string_le x z.
Proof.
  unfold string_le, String.leb. intros H1 H2.
  assert (H : String.compare x z <> Gt).
  { apply (string_compare_not_gt_trans x y z).
    - destruct (String.compare x y); congruence.
    - destruct (String.compare y z); congruence. }
  destruct (String.compare x z); congruence.
Qed.

Lemma string_leb_ge (x y : string) :
  String.leb x y = false -> string_le y x.
Proof.
  intro H. destruct (String.leb_total x y) as [E|E]; [congruence | exact E].
Qed.

Lemma Permutation_filter {A} (p : A -> bool) (l l' : list A) :
  Permutation l l' -> Permutation (filter p l) (filter p l').
Proof.
  induction 1 as [|x l l' H IH|x y l|l l' l'' H1 IH1 H2 IH2]; cbn [filter].
  - constructor.
  - destruct (p x); [constructor|]; exact IH.
  - destruct (p x), (p y); try reflexivity. apply perm_swap.
  - etransitivity; eassumption.
Qed.

Lemma filter_th_render (l : list DocumentTableCell) :
  map c_text (filter is_th_cell (map render_cell l))
  = map header_cell_text (filter is_column_header l).
Proof.
  induction l as [|c l IH]; [reflexivity|].
  cbn [map filter]. unfold is_th_cell at 1, render_cell at 1. cbn [c_tag].
  destruct (is_column_header c); cbn [map]; rewrite IH; reflexivity.
Qed.

(** X23: for every raw table with a cell and a span of its own whose
    cells hold plain text, the projected [header_text] holds the text of
    every cell of kind columnHeader, double backslashes removed, each cell
    once, in ascending string order; this holds however the rows of the
    markup nest. *)
Theorem projected_header_text (t : DocumentTable) :
  cells t <> [] -> spans t <> [] -> plain_cells t ->
  exists r,
    prepare_html_table t = Ok r
    /\ Permutation (header_text r)
         (map header_cell_text (filter is_column_header (cells t)))
    /\ StronglySorted string_le (header_text r).
Proof.
  intros Hc Hs _.
  destruct (prepare_html_table_returns t Hs Hc)
    as [mn [mx [m [st [_ [Em [_ E]]]]]]].
  eexists. split; [exact E|]. cbn [header_text]. split.
  - rewrite sorted_permutation, th_texts_cells_in, cells_in_BeautifulSoup.
    unfold table_to_html in Em. fold (visit_order t) in Em.
    destruct (visit_order t) as [|c s] eqn:Ev.
    + discriminate Em.
    + rewrite index_0_cons in Em. cbn [bind] in Em.
      destruct (table_to_html_steps_leaves (c :: s)
                  [Open table; Data newline] (rowIndex c)) as [body [Eb L]].
      destruct (fold_left _ _ _) as [html cur]. cbn [fst] in Eb. subst html.
      injection Em as <-.
      change (leaves (Open table :: Data newline
                      :: body ++ [Close tr; Close table]))
        with (leaves (body ++ [Close tr; Close table])).
      rewrite leaves_app, L. cbn [leaves flat_map app].
      rewrite app_nil_r, filter_th_render, <- Ev.
      apply Permutation_map, Permutation_filter, sorted_permutation.
  - apply (sorted_strongly_sorted String.leb string_le).
    + intros x y H. exact H.
    + exact string_leb_ge.
    + exact string_le_trans.
Qed.

Lemma projected_header_text_witness :
  cells table_late_header <> [] /\ spans table_late_header <> []
  /\ plain_cells table_late_header
  /\ exists r,
       prepare_html_table table_late_header = Ok r
       /\ Permutation (header_text r)
            (map header_cell_text
               (filter is_column_header (cells table_late_header)))
       /\ StronglySorted string_le (header_text r).
Proof.
  assert (Hc : cells table_late_header <> []) by (simpl; discriminate).
  assert (Hs : spans table_late_header <> []) by (simpl; discriminate).
  assert (Hp : plain_cells table_late_header)
    by (constructor; [reflexivity | constructor; [reflexivity | constructor]]).
  split; [exact Hc|]. split; [exact Hs|]. split; [exact Hp|].
  exact (projected_header_text table_late_header Hc Hs Hp).
Defined.

(** ** Cell text *)

Lemma remove_double_backslash_head (a : ascii) (t : string) :
  Ascii.eqb a backslash = false ->
  exists t', remove_double_backslash (String a t) = String a t'.
Proof.
  intro H. cbn [remove_double_backslash]. destruct t as [|b rest].
  - eexists. reflexivity.
  - rewrite H. cbn [andb]. eexists. reflexivity.
Qed.

Lemma remove_double_backslash_step (a b : ascii) (rest : string) :
  remove_double_backslash (String a (String b rest))
  = if (Ascii.eqb a backslash && Ascii.eqb b backslash)%bool
    then remove_double_backslash rest
    else String a (remove_double_backslash (String b rest)).
Proof. reflexivity. Qed.

Lemma has_double_backslash_step (a b : ascii) (rest : string) :
  has_double_backslash (String a (String b rest))
  = (Ascii.eqb a backslash && Ascii.eqb b backslash)
    || has_double_backslash (String b rest).
Proof. reflexivity. Qed.

Lemma remove_double_backslash_clean_upto (n : nat) :
  forall s, (String.length s <= n)%nat ->
    has_double_backslash (remove_double_backslash s) = false.
Proof.
  induction n as [|n IH]; intros s Hlen.
  - destruct s; [reflexivity | cbn in Hlen; lia].
  - destruct s as [|a [|b rest]]; [reflexivity | reflexivity |].
    cbn [String.length] in Hlen.
    assert (Ht : has_double_backslash
                   (remove_double_backslash (String b rest)) = false)
      by (apply IH; cbn [String.length]; lia).
    rewrite remove_double_backslash_step.
    destruct (Ascii.eqb a backslash) eqn:Ea;
      destruct (Ascii.eqb b backslash) eqn:Eb; cbn [andb].
    + apply IH. lia.
    + destruct (remove_double_backslash_head b rest Eb) as [t' Et].
      rewrite Et in Ht |- *.
      rewrite has_double_backslash_step, Eb, andb_false_r. exact Ht.
    + destruct (remove_double_backslash (String b rest)) as [|b' r'];
        [reflexivity|].
      rewrite has_double_backslash_step, Ea. exact Ht.
    + destruct (remove_double_backslash (String b rest)) as [|b' r'];
        [reflexivity|].
      rewrite has_double_backslash_step, Ea. exact Ht.
Qed.

Lemma remove_double_backslash_fixed (n : nat) :
  forall s, (String.length s <= n)%nat ->
    has_double_backslash s = false -> remove_double_backslash s = s.
Proof.
  induction n as [|n IH]; intros s Hlen Hs.
  - destruct s; [reflexivity | cbn in Hlen; lia].
  - destruct s as [|a [|b rest]]; [reflexivity | reflexivity |].
    cbn [String.length] in Hlen. rewrite has_double_backslash_step in Hs.
    apply orb_false_iff in Hs. destruct Hs as [Hab Ht].
    rewrite remove_double_backslash_step, Hab. f_equal.
    apply (IH (String b rest)); [cbn [String.length]; lia | exact Ht].
Qed.

(** X24: the text a cell is rendered with never holds two backslash
    characters in a row, and a content without such a pair is rendered as
    it is. *)
Theorem render_cell_text_clean (c : DocumentTableCell) :
  has_double_backslash (c_text (render_cell c)) = false
  /\ (has_double_backslash (cell_content c) = false ->
      c_text (render_cell c) = cell_content c).
Proof.
  unfold render_cell. cbn [c_text]. split.
  - apply (remove_double_backslash_clean_upto (String.length (cell_content c))).
    lia.
  - apply (remove_double_backslash_fixed (String.length (cell_content c))).
    lia.
Qed.

Lemma render_cell_text_clean_witness :
  has_double_backslash
    (c_text (render_cell (mk_cell 0 0 None None None "a\\b\c\\\d" []))) = false
  /\ has_double_backslash (cell_content (mk_cell 0 0 None None None "a\b" []))
     = false
  /\ c_text (render_cell (mk_cell 0 0 None None None "a\b" [])) = "a\b"%string.
Proof.
  split; [exact (proj1 (render_cell_text_clean _))|].
  split; [reflexivity|].
  exact (proj2 (render_cell_text_clean
                  (mk_cell 0 0 None None None "a\b" [])) eq_refl).
Defined.
